(** * The key-value cache admission policy of db/kv_cache_policy.cc

    A shallow embedding of the statistics table [KVCPTable], the threshold
    table [KVCP_ThresholdTable] and the [KVCP_*] entry points, followed by
    the properties of the policy.

    Conventions.
    - [uint32_t] and [uint64_t] values are integers in [Z]; every
      arithmetic result is reduced with [wrap32] or [wrap64] where the C++
      operation wraps around.
    - A [const void*] is the integer [reinterpret_cast<uint64_t>] gives.
    - [std::string] and [Slice] are [string] (a sequence of 8-bit chars).
    - [std::unordered_map<K, V, H>] is [gmap K V]: the hash functor [H] only
      picks buckets, and the key equality [operator==] is shown to be
      equality of the records ([HKey_eqb_spec], [KVCP_TKey_eqb_spec]).
    - [std::vector<Shard>] is a list, indexed with stdpp's list lookup.
    - Each method body runs under the [std::lock_guard] of its shard, so a
      method is one atomic step on the table: methods that assign are
      functions from tables to tables, methods that only read are
      functions from tables to their result. *)

From Stdlib Require Import ZArith NArith Lia.
From stdpp Require Import base option list gmap strings.

Local Open Scope Z_scope.

(** ** Machine integers *)

Definition wrap32 (x : Z) : Z := x mod 2 ^ 32.
Definition wrap64 (x : Z) : Z := x mod 2 ^ 64.

Definition is_u32 (x : Z) : Prop := 0 ≤ x < 2 ^ 32.

(** ** Data model

    *** The statistics table *)

(** struct Entry *)
Record Entry : Type := mkEntry {
  cached_key_count : Z;
  invalidation_count : Z
}.

(** The value-initialised [Entry] that [operator[]] inserts. *)
Definition Entry_default : Entry := mkEntry 0 0.

(** struct KVCPKeyCtx (the caller's view of a key) *)
Record KVCPKeyCtx : Type := mkCtx {
  ctx_db_ptr : Z;
  ctx_cf_id : Z;
  ctx_user_key : string
}.

(** struct HKey (the owned key stored in the map) *)
Record HKey : Type := mkHKey {
  db_ptr : Z;
  cf_id : Z;
  user_key : string
}.

(** HKey::operator== *)
Definition HKey_eqb (a o : HKey) : bool :=
  (db_ptr a =? db_ptr o) && (cf_id a =? cf_id o)
  && bool_decide (user_key a = user_key o).

Definition HKey_to_tuple (k : HKey) : Z * Z * string :=
  (db_ptr k, cf_id k, user_key k).
Definition HKey_of_tuple (p : Z * Z * string) : HKey :=
  mkHKey p.1.1 p.1.2 p.2.

Definition HKey_of_to_tuple (k : HKey) : HKey_of_tuple (HKey_to_tuple k) = k :=
  match k with mkHKey _ _ _ => eq_refl end.

#[global] Instance HKey_eq_dec : EqDecision HKey.
Proof. solve_decision. Defined.
#[global] Instance HKey_countable : Countable HKey :=
  inj_countable' HKey_to_tuple HKey_of_tuple HKey_of_to_tuple.

#[global] Instance Entry_eq_dec : EqDecision Entry.
Proof. solve_decision. Defined.
#[global] Instance KVCPKeyCtx_eq_dec : EqDecision KVCPKeyCtx.
Proof. solve_decision. Defined.

(** struct Shard: the mutex carries no data; the map is the state. *)
Record Shard : Type := mkShard { map : gmap HKey Entry }.

#[global] Instance Shard_inhabited : Inhabited Shard := populate (mkShard ∅).

(** KVCPTable::kShards *)
Definition kShards : Z := 64.

(** KVCPTable::MakeKey *)
Definition MakeKey (k : KVCPKeyCtx) : HKey :=
  {| db_ptr := ctx_db_ptr k; cf_id := ctx_cf_id k; user_key := ctx_user_key k |}.

(** The lambda [mix] of the hash functions: [h ^= x; h *= 1099511628211]. *)
Definition mix (h x : Z) : Z := wrap64 (Z.lxor h x * 1099511628211).

(** class KVCPTable: the member [shards_]. *)
Abbreviation KVCPTable := (list Shard).

(** *** The threshold table *)

(** kKVCPDefaultThreshold *)
Definition kKVCPDefaultThreshold : Z := 3.

(** struct KVCP_TKey *)
Record KVCP_TKey : Type := mkTKey {
  t_db_ptr : Z;
  t_cf_id : Z
}.

(** KVCP_TKey::operator== *)
Definition KVCP_TKey_eqb (a o : KVCP_TKey) : bool :=
  (t_db_ptr a =? t_db_ptr o) && (t_cf_id a =? t_cf_id o).

Definition KVCP_TKey_to_pair (k : KVCP_TKey) : Z * Z := (t_db_ptr k, t_cf_id k).
Definition KVCP_TKey_of_pair (p : Z * Z) : KVCP_TKey := mkTKey p.1 p.2.

Definition KVCP_TKey_of_to_pair (k : KVCP_TKey) :
    KVCP_TKey_of_pair (KVCP_TKey_to_pair k) = k :=
  match k with mkTKey _ _ => eq_refl end.

#[global] Instance KVCP_TKey_eq_dec : EqDecision KVCP_TKey.
Proof. solve_decision. Defined.
#[global] Instance KVCP_TKey_countable : Countable KVCP_TKey :=
  inj_countable' KVCP_TKey_to_pair KVCP_TKey_of_pair KVCP_TKey_of_to_pair.

(** struct KVCP_TShard: the map holds the value of each
    [std::atomic<uint32_t>]. *)
Record KVCP_TShard : Type := mkTShard { tmap : gmap KVCP_TKey Z }.

#[global] Instance KVCP_TShard_inhabited : Inhabited KVCP_TShard :=
  populate (mkTShard ∅).

(** class KVCP_ThresholdTable: the member [shards_]. *)
Abbreviation KVCP_ThresholdTable := (list KVCP_TShard).

Section Policy.

(** ** The statistics table *)

(** [Hash64(data, size, seed)] comes from util/hash.h, outside the sources
    of the policy; the development is parametric in it. *)
Variable Hash64 : string → Z → Z.

(** HKeyHash::operator() *)
Definition HKeyHash (k : HKey) : Z :=
  let h := 1469598103934665603 in
  let h := mix h (db_ptr k) in
  let h := mix h (cf_id k) in
  let h := Z.lxor h (Hash64 (user_key k) 0x9ae16a3b2f90404f) in
  wrap64 (h * 1099511628211).

(** KVCPTable::ShardIdx *)
Definition ShardIdx (k : KVCPKeyCtx) : Z :=
  let h := 1469598103934665603 in
  let h := mix h (ctx_db_ptr k) in
  let h := mix h (ctx_cf_id k) in
  let h := Z.lxor h (Hash64 (ctx_user_key k) 0x9ae16a3b2f90404f) in
  let h := wrap64 (h * 1099511628211) in
  Z.land h (kShards - 1).

(** KVCPTable::KVCPTable() : shards_(kShards) *)
Definition KVCPTable_new : KVCPTable := replicate (Z.to_nat kShards) (mkShard ∅).

(** KVCPTable::ShardRef, read side: [shards_[ShardIdx(k)]].  The index is
    below [kShards] ([ShardIdx_range]), so it is in range for every table
    of [kShards] shards; the model reads an empty shard otherwise. *)
Definition ShardRef (k : KVCPKeyCtx) (t : KVCPTable) : Shard :=
  t !!! Z.to_nat (ShardIdx k).

(** KVCPTable::ShardRef, write side: run [f] on the map of
    [shards_[ShardIdx(k)]] in place (no change when out of range). *)
Definition ShardUpd (k : KVCPKeyCtx) (f : gmap HKey Entry → gmap HKey Entry)
    (t : KVCPTable) : KVCPTable :=
  alter (λ sh, mkShard (f (map sh))) (Z.to_nat (ShardIdx k)) t.

(** [sh.map.find(MakeKey(k))], with [None] for [sh.map.end()]. *)
Definition find (k : KVCPKeyCtx) (t : KVCPTable) : option Entry :=
  map (ShardRef k t) !! MakeKey k.

(** KVCPTable::OnMiss *)
Definition OnMiss (k : KVCPKeyCtx) (t : KVCPTable) : KVCPTable :=
  ShardUpd k (λ m,
    match m !! MakeKey k with
    | Some e =>
        if 0 <? cached_key_count e
        then <[MakeKey k :=
                 mkEntry (cached_key_count e) (wrap32 (invalidation_count e + 1))]> m
        else m
    | None => m
    end) t.

(** KVCPTable::ShouldSkipInsert *)
Definition ShouldSkipInsert (k : KVCPKeyCtx) (threshold : Z) (t : KVCPTable) : bool :=
  match find k t with
  | None => false
  | Some e => threshold <=? invalidation_count e
  end.

(** KVCPTable::OnInsert: [operator[]] inserts [Entry_default] when the key
    is absent, then the count is incremented through the reference. *)
Definition OnInsert (k : KVCPKeyCtx) (t : KVCPTable) : KVCPTable :=
  ShardUpd k (λ m,
    let e := default Entry_default (m !! MakeKey k) in
    <[MakeKey k := mkEntry (wrap32 (cached_key_count e + 1)) (invalidation_count e)]> m) t.

(** KVCPTable::OnEvict *)
Definition OnEvict (k : KVCPKeyCtx) (t : KVCPTable) : KVCPTable :=
  ShardUpd k (λ m,
    match m !! MakeKey k with
    | None => m
    | Some e =>
        if 1 <? cached_key_count e
        then <[MakeKey k :=
                 mkEntry (wrap32 (cached_key_count e - 1)) (invalidation_count e)]> m
        else delete (MakeKey k) m
    end) t.

(** KVCPTable::GetInvalidation *)
Definition GetInvalidation (k : KVCPKeyCtx) (t : KVCPTable) : Z :=
  match find k t with
  | None => 0
  | Some e => invalidation_count e
  end.

(** KVCPTable::ClearAll: every shard's map is cleared in turn. *)
Definition ClearAll (t : KVCPTable) : KVCPTable :=
  (λ _ : Shard, mkShard ∅) <$> t.

(** ** The threshold table *)

(** KVCP_TKeyHash::operator() *)
Definition KVCP_TKeyHash (k : KVCP_TKey) : Z :=
  let h := 1469598103934665603 in
  let h := mix h (t_db_ptr k) in
  let h := mix h (t_cf_id k) in
  h.

(** KVCP_ThresholdTable::KVCP_ThresholdTable() : shards_(kShards) *)
Definition KVCP_ThresholdTable_new : KVCP_ThresholdTable :=
  replicate (Z.to_nat kShards) (mkTShard ∅).

(** KVCP_ThresholdTable::ShardIdx *)
Definition KVCP_ThresholdTable_ShardIdx (db_ptr cf_id : Z) : Z :=
  let h := 1469598103934665603 in
  let h := mix h db_ptr in
  let h := mix h cf_id in
  Z.land h (kShards - 1).

(** KVCP_ThresholdTable::Set.  Both branches leave the slot of [k] holding
    [v]: [sh.map[k]] creates the slot that [store] then fills. *)
Definition KVCP_ThresholdTable_Set (db_ptr cf_id v : Z)
    (t : KVCP_ThresholdTable) : KVCP_ThresholdTable :=
  alter (λ sh,
    let k := mkTKey db_ptr cf_id in
    match tmap sh !! k with
    | None => mkTShard (<[k := v]> (tmap sh))
    | Some _ => mkTShard (<[k := v]> (tmap sh))
    end) (Z.to_nat (KVCP_ThresholdTable_ShardIdx db_ptr cf_id)) t.

(** KVCP_ThresholdTable::Get *)
Definition KVCP_ThresholdTable_Get (db_ptr cf_id : Z)
    (t : KVCP_ThresholdTable) : Z :=
  let sh := t !!! Z.to_nat (KVCP_ThresholdTable_ShardIdx db_ptr cf_id) in
  match tmap sh !! mkTKey db_ptr cf_id with
  | None => kKVCPDefaultThreshold
  | Some v => v
  end.

(** ** The process-wide state and the entry points *)

(** The two function-local statics [KVCPTable::Inst()] and
    [KVCP_ThresholdTable::Inst()], and the hybrid-mode flag (modelled
    from the spec, see [KVCP_SetHybridEnabled]). *)
Record Process : Type := mkProcess {
  KVCPTable_Inst : KVCPTable;
  KVCP_ThresholdTable_Inst : KVCP_ThresholdTable;
  hybrid_enabled : bool
}.

(** The state at startup: both tables as their constructors build them on
    first use, the flag off. *)
Definition Process_start : Process :=
  mkProcess KVCPTable_new KVCP_ThresholdTable_new false.

Definition KVCP_OnRowCacheMiss (k : KVCPKeyCtx) (p : Process) : Process :=
  mkProcess (OnMiss k (KVCPTable_Inst p)) (KVCP_ThresholdTable_Inst p)
            (hybrid_enabled p).

Definition KVCP_ShouldSkipRowCacheInsert (k : KVCPKeyCtx) (threshold : Z)
    (p : Process) : bool :=
  ShouldSkipInsert k threshold (KVCPTable_Inst p).

Definition KVCP_OnRowCacheInsert (k : KVCPKeyCtx) (p : Process) : Process :=
  mkProcess (OnInsert k (KVCPTable_Inst p)) (KVCP_ThresholdTable_Inst p)
            (hybrid_enabled p).

Definition KVCP_OnRowCacheEvict (k : KVCPKeyCtx) (p : Process) : Process :=
  mkProcess (OnEvict k (KVCPTable_Inst p)) (KVCP_ThresholdTable_Inst p)
            (hybrid_enabled p).

Definition KVCP_GetInvalidationCount (k : KVCPKeyCtx) (p : Process) : Z :=
  GetInvalidation k (KVCPTable_Inst p).

Definition KVCP_ClearAll (p : Process) : Process :=
  mkProcess (ClearAll (KVCPTable_Inst p)) (KVCP_ThresholdTable_Inst p)
            (hybrid_enabled p).

Definition KVCP_SetThreshold (db_ptr cf_id value : Z) (p : Process) : Process :=
  mkProcess (KVCPTable_Inst p)
            (KVCP_ThresholdTable_Set db_ptr cf_id value (KVCP_ThresholdTable_Inst p))
            (hybrid_enabled p).

Definition KVCP_GetThreshold (db_ptr cf_id : Z) (p : Process) : Z :=
  KVCP_ThresholdTable_Get db_ptr cf_id (KVCP_ThresholdTable_Inst p).

(** Modelled from the spec: [KVCP_GetCachedKeyCount] is declared in the
    header and has no definition in kv_cache_policy.cc.  The spec gives
    "GetCachedCount(key) -> u32: pure read, 0 if absent" and "reads
    cached_count, 0 if absent"; the lookup is the one of the sibling
    getter [GetInvalidation]. *)
Definition GetCachedKeyCount (k : KVCPKeyCtx) (t : KVCPTable) : Z :=
  match find k t with
  | None => 0
  | Some e => cached_key_count e
  end.

Definition KVCP_GetCachedKeyCount (k : KVCPKeyCtx) (p : Process) : Z :=
  GetCachedKeyCount k (KVCPTable_Inst p).

(** Modelled from the spec: [KVCP_SetHybridEnabled] and
    [KVCP_IsHybridEnabled] are declared in the header and have no
    definition in kv_cache_policy.cc.  The spec gives "SetEnabled(bool),
    IsEnabled() -> bool: plain atomic read/write, default false". *)
Definition KVCP_SetHybridEnabled (on : bool) (p : Process) : Process :=
  mkProcess (KVCPTable_Inst p) (KVCP_ThresholdTable_Inst p) on.

Definition KVCP_IsHybridEnabled (p : Process) : bool := hybrid_enabled p.

(** ** Calls and runs

    One constructor per entry point; [exec] performs a call and gives the
    new state with the value returned. *)
Inductive Call : Type :=
  | CallMiss (k : KVCPKeyCtx)
  | CallShouldSkip (k : KVCPKeyCtx) (threshold : Z)
  | CallInsert (k : KVCPKeyCtx)
  | CallEvict (k : KVCPKeyCtx)
  | CallGetInvalidationCount (k : KVCPKeyCtx)
  | CallGetCachedKeyCount (k : KVCPKeyCtx)
  | CallClearAll
  | CallSetThreshold (db_ptr cf_id value : Z)
  | CallGetThreshold (db_ptr cf_id : Z)
  | CallSetHybridEnabled (on : bool)
  | CallIsHybridEnabled.

Inductive Ret : Type :=
  | RetVoid
  | RetBool (b : bool)
  | RetU32 (v : Z).

Definition exec (c : Call) (p : Process) : Process * Ret :=
  match c with
  | CallMiss k => (KVCP_OnRowCacheMiss k p, RetVoid)
  | CallShouldSkip k th => (p, RetBool (KVCP_ShouldSkipRowCacheInsert k th p))
  | CallInsert k => (KVCP_OnRowCacheInsert k p, RetVoid)
  | CallEvict k => (KVCP_OnRowCacheEvict k p, RetVoid)
  | CallGetInvalidationCount k => (p, RetU32 (KVCP_GetInvalidationCount k p))
  | CallGetCachedKeyCount k => (p, RetU32 (KVCP_GetCachedKeyCount k p))
  | CallClearAll => (KVCP_ClearAll p, RetVoid)
  | CallSetThreshold d c v => (KVCP_SetThreshold d c v p, RetVoid)
  | CallGetThreshold d c => (p, RetU32 (KVCP_GetThreshold d c p))
  | CallSetHybridEnabled on => (KVCP_SetHybridEnabled on p, RetVoid)
  | CallIsHybridEnabled => (p, RetBool (KVCP_IsHybridEnabled p))
  end.

(** The state after a sequence of calls, oldest first. *)
Definition run (cs : list Call) (p : Process) : Process :=
  foldl (λ q c, (exec c q).1) p cs.

(** A state is reachable when some sequence of calls leads to it from the
    startup state. *)
Definition reachable (p : Process) : Prop := ∃ cs, p = run cs Process_start.

(** ** Well-formed states *)

(** A property of every entry stored in any shard. *)
Definition AllEntries (P : Entry → Prop) (t : KVCPTable) : Prop :=
  ∀ (i : nat) (sh : Shard) (hk : HKey) (e : Entry),
    t !! i = Some sh → map sh !! hk = Some e → P e.

Definition Entry_u32 (e : Entry) : Prop :=
  is_u32 (cached_key_count e) ∧ is_u32 (invalidation_count e).

(** The representation the C++ types enforce: [kShards] shards, and
    [uint32_t] counters. *)
Definition KVCPTable_wf (t : KVCPTable) : Prop :=
  length t = Z.to_nat kShards ∧ AllEntries Entry_u32 t.

Definition KVCP_ThresholdTable_wf (t : KVCP_ThresholdTable) : Prop :=
  length t = Z.to_nat kShards.

Definition Process_wf (p : Process) : Prop :=
  KVCPTable_wf (KVCPTable_Inst p) ∧
  KVCP_ThresholdTable_wf (KVCP_ThresholdTable_Inst p).

(** The cached count of an optional entry, 0 when there is none. *)
Definition count_of (o : option Entry) : Z :=
  match o with Some e => cached_key_count e | None => 0 end.

(** An example [Hash64] (FNV-1a over the bytes, starting from the seed),
    to instantiate the parameter in closed examples. *)
Fixpoint Hash64_sample (data : string) (seed : Z) : Z :=
  match data with
  | EmptyString => seed
  | String c rest =>
      Hash64_sample rest (wrap64 (Z.lxor seed (Z.of_N (Ascii.N_of_ascii c)) * 1099511628211))
  end.

(** Two keys of one column family of the database at address 4096. *)
Definition ctx_abc : KVCPKeyCtx := mkCtx 4096 0 "abc".
Definition ctx_abd : KVCPKeyCtx := mkCtx 4096 0 "abd".

(** The value of the most recent [SetThreshold(d, c, _)] among the calls
    [cs] (oldest first), if there is one. *)
Definition last_set (d c : Z) (cs : list Call) : option Z :=
  foldl (λ acc call,
    match call with
    | CallSetThreshold d' c' v =>
        if KVCP_TKey_eqb (mkTKey d' c') (mkTKey d c) then Some v else acc
    | _ => acc
    end) None cs.

(** The number of insert calls among [cs]. *)
Fixpoint inserts (cs : list Call) : Z :=
  match cs with
  | [] => 0
  | CallInsert _ :: cs' => 1 + inserts cs'
  | _ :: cs' => inserts cs'
  end.

Definition is_SetHybridEnabled (c : Call) : bool :=
  match c with CallSetHybridEnabled _ => true | _ => false end.

Definition is_hybrid_call (c : Call) : bool :=
  match c with
  | CallSetHybridEnabled _ | CallIsHybridEnabled => true
  | _ => false
  end.

(** The effect of one call on the entry of one key: the state machine of a
    key, with [None] for an absent entry.  [find_exec] shows that the
    table follows it at every key. *)
Definition step_entry (c : Call) (k : KVCPKeyCtx) (o : option Entry) : option Entry :=
  match c with
  | CallMiss k0 =>
      if decide (k0 = k) then
        match o with
        | Some e =>
            Some (if 0 <? cached_key_count e
                  then mkEntry (cached_key_count e) (wrap32 (invalidation_count e + 1))
                  else e)
        | None => None
        end
      else o
  | CallInsert k0 =>
      if decide (k0 = k) then
        Some (mkEntry (wrap32 (cached_key_count (default Entry_default o) + 1))
                      (invalidation_count (default Entry_default o)))
      else o
  | CallEvict k0 =>
      if decide (k0 = k) then
        match o with
        | Some e =>
            if 1 <? cached_key_count e
            then Some (mkEntry (wrap32 (cached_key_count e - 1)) (invalidation_count e))
            else None
        | None => None
        end
      else o
  | CallClearAll => None
  | _ => o
  end.

(** The invariant of the data model: a key has an entry exactly when its
    cached count is at least 1. *)
Definition StatsInv (p : Process) : Prop :=
  ∀ k, is_Some (find k (KVCPTable_Inst p)) ↔ 1 ≤ count_of (find k (KVCPTable_Inst p)).

(** ** The mutators as updates of one slot

    What [OnMiss], [OnInsert] and [OnEvict] do to the slot of their key,
    as functions on the optional entry of that slot
    ([OnMiss_partial_alter] and its siblings relate them to the code). *)
Definition miss_entry (o : option Entry) : option Entry :=
  match o with
  | Some e =>
      Some (if 0 <? cached_key_count e
            then mkEntry (cached_key_count e) (wrap32 (invalidation_count e + 1))
            else e)
  | None => None
  end.

Definition insert_entry (o : option Entry) : option Entry :=
  Some (mkEntry (wrap32 (cached_key_count (default Entry_default o) + 1))
                (invalidation_count (default Entry_default o))).

Definition evict_entry (o : option Entry) : option Entry :=
  match o with
  | Some e =>
      if 1 <? cached_key_count e
      then Some (mkEntry (wrap32 (cached_key_count e - 1)) (invalidation_count e))
      else None
  | None => None
  end.

Definition key_update (c : Call) : option Entry → option Entry :=
  match c with
  | CallMiss _ => miss_entry
  | CallInsert _ => insert_entry
  | CallEvict _ => evict_entry
  | _ => id
  end.

(** [c] is one of the three calls that write the entry of [k]. *)
Definition writes_key (c : Call) (k : KVCPKeyCtx) : Prop :=
  c = CallMiss k ∨ c = CallInsert k ∨ c = CallEvict k.

(** The shard that the bucket hash of a stored key selects. *)
Definition HKey_shard (hk : HKey) : nat :=
  Z.to_nat (Z.land (HKeyHash hk) (kShards - 1)).

Definition KVCP_TKey_shard (tk : KVCP_TKey) : nat :=
  Z.to_nat (Z.land (KVCP_TKeyHash tk) (kShards - 1)).

(** Every stored key sits in the shard its hash selects. *)
Definition Placed (t : KVCPTable) : Prop :=
  ∀ (i : nat) (sh : Shard) (hk : HKey),
    t !! i = Some sh → is_Some (map sh !! hk) → HKey_shard hk = i.

Definition KVCP_ThresholdTable_Placed (t : KVCP_ThresholdTable) : Prop :=
  ∀ (i : nat) (sh : KVCP_TShard) (tk : KVCP_TKey),
    t !! i = Some sh → is_Some (tmap sh !! tk) → KVCP_TKey_shard tk = i.

(** The number of miss calls on key [k] among [cs]. *)
Fixpoint misses (k : KVCPKeyCtx) (cs : list Call) : Z :=
  match cs with
  | [] => 0
  | CallMiss k0 :: cs' => (if decide (k0 = k) then 1 else 0) + misses k cs'
  | _ :: cs' => misses k cs'
  end.

(** * Properties *)

(** ** Machine integers and keys *)

(** Settle the comparisons [a <? b] of the goal that [lia] decides. *)
Ltac settle_ltb :=
  repeat match goal with
  | |- context [?a <? ?b] =>
      first [ replace (a <? b) with true by (symmetry; apply Z.ltb_lt; lia)
            | replace (a <? b) with false by (symmetry; apply Z.ltb_ge; lia) ]
  end.

Lemma wrap32_small (x : Z) : is_u32 x → wrap32 x = x.
Proof. intros Hx. unfold wrap32. apply Z.mod_small. exact Hx. Qed.

Lemma wrap32_u32 (x : Z) : is_u32 (wrap32 x).
Proof. unfold is_u32, wrap32. apply Z.mod_pos_bound. lia. Qed.

Lemma land_kShards_range (h : Z) : 0 ≤ Z.land h (kShards - 1) < kShards.
Proof.
  change (kShards - 1) with (Z.ones 6). rewrite Z.land_ones by lia.
  change kShards with (2 ^ 6). apply Z.mod_pos_bound. lia.
Qed.

Lemma HKey_eqb_spec (a o : HKey) : HKey_eqb a o = true ↔ a = o.
Proof.
  unfold HKey_eqb. destruct a as [d c u], o as [d' c' u']; simpl.
  rewrite !andb_true_iff, !Z.eqb_eq, bool_decide_eq_true.
  split; [intros [[-> ->] ->]; reflexivity | intros [= -> -> ->]; auto].
Qed.

Lemma KVCP_TKey_eqb_spec (a o : KVCP_TKey) : KVCP_TKey_eqb a o = true ↔ a = o.
Proof.
  unfold KVCP_TKey_eqb. destruct a as [d c], o as [d' c']; simpl.
  rewrite andb_true_iff, !Z.eqb_eq.
  split; [intros [-> ->]; reflexivity | intros [= -> ->]; auto].
Qed.

Lemma MakeKey_inj (k k' : KVCPKeyCtx) : MakeKey k = MakeKey k' → k = k'.
Proof. destruct k, k'; unfold MakeKey; simpl. by intros [= -> -> ->]. Qed.

Lemma KVCP_ThresholdTable_ShardIdx_range (d c : Z) :
  0 ≤ KVCP_ThresholdTable_ShardIdx d c < kShards.
Proof. apply land_kShards_range. Qed.

(** ** The threshold table *)

Lemma KVCP_ThresholdTable_new_wf : KVCP_ThresholdTable_wf KVCP_ThresholdTable_new.
Proof. apply length_replicate. Qed.

Lemma KVCP_ThresholdTable_Set_wf d c v (t : KVCP_ThresholdTable) :
  KVCP_ThresholdTable_wf t → KVCP_ThresholdTable_wf (KVCP_ThresholdTable_Set d c v t).
Proof. unfold KVCP_ThresholdTable_wf, KVCP_ThresholdTable_Set. by rewrite length_alter. Qed.

(** The two branches of [Set] store the same value. *)
Lemma KVCP_ThresholdTable_Set_alt d c v (t : KVCP_ThresholdTable) :
  KVCP_ThresholdTable_Set d c v t =
  alter (λ sh, mkTShard (<[mkTKey d c := v]> (tmap sh)))
        (Z.to_nat (KVCP_ThresholdTable_ShardIdx d c)) t.
Proof.
  unfold KVCP_ThresholdTable_Set. apply list_alter_ext; [|reflexivity].
  intros sh _. by destruct (tmap sh !! mkTKey d c).
Qed.

Lemma KVCP_ThresholdTable_Get_Set_eq d c v (t : KVCP_ThresholdTable) :
  KVCP_ThresholdTable_wf t →
  KVCP_ThresholdTable_Get d c (KVCP_ThresholdTable_Set d c v t) = v.
Proof.
  intros Hlen. rewrite KVCP_ThresholdTable_Set_alt. unfold KVCP_ThresholdTable_Get.
  rewrite list_lookup_total_alter_eq.
  - simpl. by rewrite lookup_insert_eq.
  - rewrite Hlen. pose proof (KVCP_ThresholdTable_ShardIdx_range d c). lia.
Qed.

Lemma KVCP_ThresholdTable_Get_Set_ne d c d' c' v (t : KVCP_ThresholdTable) :
  (d, c) ≠ (d', c') →
  KVCP_ThresholdTable_Get d' c' (KVCP_ThresholdTable_Set d c v t) =
  KVCP_ThresholdTable_Get d' c' t.
Proof.
  intros Hne. rewrite KVCP_ThresholdTable_Set_alt. unfold KVCP_ThresholdTable_Get.
  rewrite list_lookup_total_alter. case_decide as Hi; [|reflexivity].
  destruct Hi as [Hi _]. rewrite <- Hi.
  assert (mkTKey d c ≠ mkTKey d' c') by (intros [= -> ->]; by apply Hne).
  simpl. by rewrite lookup_insert_ne.
Qed.

Lemma KVCP_ThresholdTable_Get_new d c :
  KVCP_ThresholdTable_Get d c KVCP_ThresholdTable_new = kKVCPDefaultThreshold.
Proof.
  unfold KVCP_ThresholdTable_Get, KVCP_ThresholdTable_new.
  rewrite lookup_total_replicate_2.
  - simpl. by rewrite lookup_empty.
  - pose proof (KVCP_ThresholdTable_ShardIdx_range d c). lia.
Qed.


Lemma ShardIdx_range (k : KVCPKeyCtx) : 0 ≤ ShardIdx k < kShards.
Proof. apply land_kShards_range. Qed.

(** The shard of a key is the bucket hash of the stored key, masked: calls
    on one key always meet in one shard. *)
Lemma ShardIdx_HKeyHash (k : KVCPKeyCtx) :
  ShardIdx k = Z.land (HKeyHash (MakeKey k)) (kShards - 1).
Proof. reflexivity. Qed.

Lemma KVCP_ThresholdTable_ShardIdx_TKeyHash (d c : Z) :
  KVCP_ThresholdTable_ShardIdx d c = Z.land (KVCP_TKeyHash (mkTKey d c)) (kShards - 1).
Proof. reflexivity. Qed.

Lemma ShardIdx_lt_length (k : KVCPKeyCtx) (t : KVCPTable) :
  length t = Z.to_nat kShards → (Z.to_nat (ShardIdx k) < length t)%nat.
Proof. intros ->. pose proof (ShardIdx_range k). lia. Qed.

(** ** Shard access *)

Lemma length_ShardUpd k f (t : KVCPTable) : length (ShardUpd k f t) = length t.
Proof. apply length_alter. Qed.

Lemma find_ShardUpd_eq k f (t : KVCPTable) :
  length t = Z.to_nat kShards →
  find k (ShardUpd k f t) = f (map (ShardRef k t)) !! MakeKey k.
Proof.
  intros Hlen. unfold find, ShardRef, ShardUpd.
  rewrite list_lookup_total_alter_eq by by apply ShardIdx_lt_length.
  reflexivity.
Qed.

(** Updating the shard of [k] changes the lookup of another key [k'] only
    through what [f] does at [MakeKey k']. *)
Lemma find_ShardUpd_frame k k' f (t : KVCPTable) :
  (∀ m, f m !! MakeKey k' = m !! MakeKey k') →
  find k' (ShardUpd k f t) = find k' t.
Proof.
  intros Hf. unfold find, ShardRef, ShardUpd.
  rewrite list_lookup_total_alter. case_decide as Hi; [|reflexivity].
  destruct Hi as [Hi _]. rewrite <- Hi. simpl. apply Hf.
Qed.

Lemma ShardUpd_id k f (t : KVCPTable) :
  f (map (ShardRef k t)) = map (ShardRef k t) → ShardUpd k f t = t.
Proof.
  intros Hf. unfold ShardUpd, ShardRef in *. apply list_eq. intros j.
  rewrite list_lookup_alter. case_decide as Hj; [subst j|reflexivity].
  rewrite list_lookup_total_alt in Hf.
  destruct (t !! Z.to_nat (ShardIdx k)) as [[m]|]; simpl in *; [|reflexivity].
  by rewrite Hf.
Qed.

Lemma find_Some_lookup k (t : KVCPTable) e :
  find k t = Some e →
  ∃ sh, t !! Z.to_nat (ShardIdx k) = Some sh ∧ map sh !! MakeKey k = Some e.
Proof.
  unfold find, ShardRef. rewrite list_lookup_total_alt.
  destruct (t !! Z.to_nat (ShardIdx k)) as [sh|]; simpl; [eauto|].
  by rewrite lookup_empty.
Qed.

Lemma AllEntries_find P k (t : KVCPTable) e :
  AllEntries P t → find k t = Some e → P e.
Proof. intros Hall (sh & Hsh & He)%find_Some_lookup. eapply Hall; eauto. Qed.

Lemma AllEntries_ShardUpd (P : Entry → Prop) k f (t : KVCPTable) :
  (∀ m, (∀ hk e, m !! hk = Some e → P e) → ∀ hk e, f m !! hk = Some e → P e) →
  AllEntries P t → AllEntries P (ShardUpd k f t).
Proof.
  intros Hf Hall i sh hk e. unfold ShardUpd. rewrite list_lookup_alter.
  case_decide as Hi; [subst i|by apply Hall].
  destruct (t !! Z.to_nat (ShardIdx k)) as [sh0|] eqn:Hsh0; simpl; [|done].
  intros [= <-]; simpl. apply Hf. intros hk' e'. by apply (Hall _ _ _ _ Hsh0).
Qed.

Lemma find_alt k (t : KVCPTable) :
  find k t =
    match t !! Z.to_nat (ShardIdx k) with
    | Some sh => map sh !! MakeKey k
    | None => None
    end.
Proof.
  unfold find, ShardRef. rewrite list_lookup_total_alt.
  destruct (t !! Z.to_nat (ShardIdx k)); simpl; [reflexivity|apply lookup_empty].
Qed.

Lemma find_ShardUpd_alt k f (t : KVCPTable) :
  find k (ShardUpd k f t) =
    match t !! Z.to_nat (ShardIdx k) with
    | Some sh => f (map sh) !! MakeKey k
    | None => None
    end.
Proof.
  rewrite find_alt. unfold ShardUpd. rewrite list_lookup_alter_eq.
  by destruct (t !! Z.to_nat (ShardIdx k)).
Qed.

(** ** The operations at their own key *)

Lemma find_OnInsert_eq k (t : KVCPTable) :
  length t = Z.to_nat kShards →
  find k (OnInsert k t) =
    Some (mkEntry (wrap32 (cached_key_count (default Entry_default (find k t)) + 1))
                  (invalidation_count (default Entry_default (find k t)))).
Proof.
  intros Hlen. unfold OnInsert. rewrite find_ShardUpd_eq by done.
  by rewrite lookup_insert_eq.
Qed.

Lemma find_OnMiss_eq k (t : KVCPTable) :
  find k (OnMiss k t) =
    match find k t with
    | Some e =>
        Some (if 0 <? cached_key_count e
              then mkEntry (cached_key_count e) (wrap32 (invalidation_count e + 1))
              else e)
    | None => None
    end.
Proof.
  unfold OnMiss. rewrite find_ShardUpd_alt, find_alt.
  destruct (t !! Z.to_nat (ShardIdx k)) as [sh|]; [|reflexivity].
  destruct (map sh !! MakeKey k) as [e|] eqn:He; [|by rewrite He].
  destruct (0 <? cached_key_count e); [by rewrite lookup_insert_eq|by rewrite He].
Qed.

Lemma find_OnEvict_eq k (t : KVCPTable) :
  find k (OnEvict k t) =
    match find k t with
    | Some e =>
        if 1 <? cached_key_count e
        then Some (mkEntry (wrap32 (cached_key_count e - 1)) (invalidation_count e))
        else None
    | None => None
    end.
Proof.
  unfold OnEvict. rewrite find_ShardUpd_alt, find_alt.
  destruct (t !! Z.to_nat (ShardIdx k)) as [sh|]; [|reflexivity].
  destruct (map sh !! MakeKey k) as [e|] eqn:He; [|by rewrite He].
  destruct (1 <? cached_key_count e);
    [by rewrite lookup_insert_eq|by rewrite lookup_delete_eq].
Qed.

Lemma OnMiss_noop k (t : KVCPTable) :
  (∀ e, find k t = Some e → cached_key_count e ≤ 0) → OnMiss k t = t.
Proof.
  intros Hk. unfold OnMiss. apply ShardUpd_id.
  fold (find k t). destruct (find k t) as [e|]; [|reflexivity].
  specialize (Hk e eq_refl).
  destruct (0 <? cached_key_count e) eqn:Hc; [|reflexivity].
  apply Z.ltb_lt in Hc. lia.
Qed.

Lemma OnEvict_noop k (t : KVCPTable) : find k t = None → OnEvict k t = t.
Proof.
  intros Hk. unfold OnEvict. apply ShardUpd_id.
  fold (find k t). by rewrite Hk.
Qed.

(** ** The operations at another key *)

Lemma find_OnInsert_ne k k' (t : KVCPTable) :
  k ≠ k' → find k' (OnInsert k t) = find k' t.
Proof.
  intros Hne. apply find_ShardUpd_frame. intros m.
  apply lookup_insert_ne. intros Heq. by apply Hne, MakeKey_inj.
Qed.

Lemma find_OnMiss_ne k k' (t : KVCPTable) :
  k ≠ k' → find k' (OnMiss k t) = find k' t.
Proof.
  intros Hne. apply find_ShardUpd_frame. intros m.
  assert (MakeKey k ≠ MakeKey k') by (intros Heq; by apply Hne, MakeKey_inj).
  destruct (m !! MakeKey k) as [e|]; [|reflexivity].
  destruct (0 <? cached_key_count e); [by apply lookup_insert_ne|reflexivity].
Qed.

Lemma find_OnEvict_ne k k' (t : KVCPTable) :
  k ≠ k' → find k' (OnEvict k t) = find k' t.
Proof.
  intros Hne. apply find_ShardUpd_frame. intros m.
  assert (MakeKey k ≠ MakeKey k') by (intros Heq; by apply Hne, MakeKey_inj).
  destruct (m !! MakeKey k) as [e|]; [|reflexivity].
  destruct (1 <? cached_key_count e);
    [by apply lookup_insert_ne|by apply lookup_delete_ne].
Qed.

(** ** ClearAll *)

Lemma ClearAll_lookup (t : KVCPTable) i sh :
  ClearAll t !! i = Some sh → map sh = ∅.
Proof.
  unfold ClearAll. rewrite list_lookup_fmap.
  destruct (t !! i); simpl; [|done]. by intros [= <-].
Qed.

Lemma find_ClearAll k (t : KVCPTable) : find k (ClearAll t) = None.
Proof.
  rewrite find_alt. destruct (ClearAll t !! _) as [sh|] eqn:Hsh; [|reflexivity].
  apply ClearAll_lookup in Hsh. rewrite Hsh. apply lookup_empty.
Qed.

(** ** Well-formedness is preserved *)

Lemma KVCPTable_new_wf : KVCPTable_wf KVCPTable_new.
Proof.
  split; [apply length_replicate|].
  intros i sh hk e [-> _]%lookup_replicate. simpl. by rewrite lookup_empty.
Qed.

Lemma find_KVCPTable_new k : find k KVCPTable_new = None.
Proof.
  rewrite find_alt. unfold KVCPTable_new.
  destruct (replicate _ _ !! _) as [sh|] eqn:Hsh; [|done].
  apply lookup_replicate in Hsh as [-> _]. simpl. by rewrite lookup_empty.
Qed.

Lemma OnInsert_wf k (t : KVCPTable) : KVCPTable_wf t → KVCPTable_wf (OnInsert k t).
Proof.
  intros [Hlen Hall]. unfold OnInsert. split; [by rewrite length_ShardUpd|].
  apply AllEntries_ShardUpd; [|done]. intros m Hm hk e.
  rewrite lookup_insert. case_decide; [|by apply Hm].
  intros [= <-]. split; simpl; [apply wrap32_u32|].
  destruct (m !! MakeKey k) as [e0|] eqn:He0; simpl.
  - by apply (Hm _ _ He0).
  - unfold is_u32. lia.
Qed.

Lemma OnMiss_wf k (t : KVCPTable) : KVCPTable_wf t → KVCPTable_wf (OnMiss k t).
Proof.
  intros [Hlen Hall]. unfold OnMiss. split; [by rewrite length_ShardUpd|].
  apply AllEntries_ShardUpd; [|done]. intros m Hm hk e.
  destruct (m !! MakeKey k) as [e0|] eqn:He0; [|by apply Hm].
  destruct (0 <? cached_key_count e0); [|by apply Hm].
  rewrite lookup_insert. case_decide; [|by apply Hm].
  intros [= <-]. split; simpl; [by apply (Hm _ _ He0)|apply wrap32_u32].
Qed.

Lemma OnEvict_wf k (t : KVCPTable) : KVCPTable_wf t → KVCPTable_wf (OnEvict k t).
Proof.
  intros [Hlen Hall]. unfold OnEvict. split; [by rewrite length_ShardUpd|].
  apply AllEntries_ShardUpd; [|done]. intros m Hm hk e.
  destruct (m !! MakeKey k) as [e0|] eqn:He0; [|by apply Hm].
  destruct (1 <? cached_key_count e0).
  - rewrite lookup_insert. case_decide; [|by apply Hm].
    intros [= <-]. split; simpl; [apply wrap32_u32|by apply (Hm _ _ He0)].
  - rewrite lookup_delete. case_decide; [done|by apply Hm].
Qed.

Lemma ClearAll_wf (t : KVCPTable) : KVCPTable_wf t → KVCPTable_wf (ClearAll t).
Proof.
  intros [Hlen _]. split; [unfold ClearAll; by rewrite length_fmap|].
  intros i sh hk e Hsh. rewrite (ClearAll_lookup _ _ _ Hsh). by rewrite lookup_empty.
Qed.

(** ** Runs *)


Lemma run_nil p : run [] p = p.
Proof. reflexivity. Qed.

Lemma run_snoc cs c p : run (cs ++ [c]) p = (exec c (run cs p)).1.
Proof. unfold run. by rewrite foldl_app. Qed.

Lemma run_app cs cs' p : run (cs ++ cs') p = run cs' (run cs p).
Proof. unfold run. by rewrite foldl_app. Qed.

Lemma reachable_start : reachable Process_start.
Proof. by exists []. Qed.

Lemma reachable_exec c p : reachable p → reachable (exec c p).1.
Proof. intros [cs ->]. exists (cs ++ [c]). by rewrite run_snoc. Qed.

Lemma reachable_ind (P : Process → Prop) :
  P Process_start →
  (∀ c p, reachable p → P p → P (exec c p).1) →
  ∀ p, reachable p → P p.
Proof.
  intros Hstart Hstep p [cs ->].
  induction cs as [|c cs IH] using rev_ind; [done|].
  rewrite run_snoc. apply Hstep; [by exists cs|done].
Qed.

Lemma Process_start_wf : Process_wf Process_start.
Proof. split; [apply KVCPTable_new_wf|apply KVCP_ThresholdTable_new_wf]. Qed.

Lemma exec_wf c p : Process_wf p → Process_wf (exec c p).1.
Proof.
  intros [Hs Ht]. destruct c; simpl; try done; split; simpl; try done.
  - by apply OnMiss_wf.
  - by apply OnInsert_wf.
  - by apply OnEvict_wf.
  - by apply ClearAll_wf.
  - by apply KVCP_ThresholdTable_Set_wf.
Qed.

Lemma reachable_wf p : reachable p → Process_wf p.
Proof.
  apply reachable_ind; [apply Process_start_wf|]. intros c q _. apply exec_wf.
Qed.

(** ** The admission decision *)

(** C1: for every key and every threshold [t], zero included,
    ShouldSkipRowCacheInsert returns true exactly when the key has an entry
    whose invalidation count is at least [t]; it returns false when the key
    has no entry, true at threshold 0 as soon as an entry exists (with zero
    invalidations too), and the call leaves the whole state unchanged. *)
Theorem ShouldSkipRowCacheInsert_iff (k : KVCPKeyCtx) (t : Z) (p : Process) :
  Process_wf p →
  (KVCP_ShouldSkipRowCacheInsert k t p = true ↔
     ∃ e, find k (KVCPTable_Inst p) = Some e ∧ invalidation_count e >= t) ∧
  (find k (KVCPTable_Inst p) = None →
     KVCP_ShouldSkipRowCacheInsert k 0 p = false ∧
     KVCP_ShouldSkipRowCacheInsert k t p = false) ∧
  (is_Some (find k (KVCPTable_Inst p)) →
     KVCP_ShouldSkipRowCacheInsert k 0 p = true) ∧
  exec (CallShouldSkip k t) p =
    (p, RetBool (KVCP_ShouldSkipRowCacheInsert k t p)).
Proof.
  intros [[_ Hall] _].
  unfold KVCP_ShouldSkipRowCacheInsert, ShouldSkipInsert.
  split; [split|split; [|split]].
  - destruct (find k (KVCPTable_Inst p)) as [e|]; [|discriminate].
    intros Hle%Z.leb_le. exists e. split; [reflexivity|lia].
  - intros (e & -> & Hge). apply Z.leb_le. lia.
  - by intros ->.
  - intros [e He]. rewrite He. apply Z.leb_le.
    destruct (AllEntries_find _ _ _ _ Hall He) as [_ [? _]]. done.
  - reflexivity.
Qed.

(** ** Insertion *)

(** C3: OnRowCacheInsert gives a key without entry the entry
    (cached 1, invalidations 0); on a key with an entry it increments the
    [uint32_t] cached count by one (exactly [+ 1] below the largest value)
    and keeps the invalidation count; and no call other than an insert
    gives an entry to a key that had none. *)
Theorem OnRowCacheInsert_spec (k : KVCPKeyCtx) (p : Process) :
  Process_wf p →
  (find k (KVCPTable_Inst p) = None →
     find k (KVCPTable_Inst (KVCP_OnRowCacheInsert k p)) = Some (mkEntry 1 0)) ∧
  (∀ e, find k (KVCPTable_Inst p) = Some e →
     find k (KVCPTable_Inst (KVCP_OnRowCacheInsert k p)) =
       Some (mkEntry (wrap32 (cached_key_count e + 1)) (invalidation_count e)) ∧
     (cached_key_count e < 2 ^ 32 - 1 →
        wrap32 (cached_key_count e + 1) = cached_key_count e + 1)) ∧
  (∀ c k', (∀ k0, c ≠ CallInsert k0) →
     find k' (KVCPTable_Inst p) = None →
     find k' (KVCPTable_Inst (exec c p).1) = None).
Proof.
  intros [[Hlen Hall] _]. split; [|split].
  - intros Hk. simpl. rewrite find_OnInsert_eq by done. by rewrite Hk.
  - intros e He. split.
    + simpl. rewrite find_OnInsert_eq by done. by rewrite He.
    + intros Hlt. apply wrap32_small.
      destruct (AllEntries_find _ _ _ _ Hall He) as [[? _] _]. unfold is_u32. lia.
  - intros c k' Hc Hk'.
    destruct c as [k0|k0 th|k0|k0|k0|k0| |d c0 v|d c0|on| ]; simpl; try done.
    + destruct (decide (k0 = k')) as [->|Hne];
        [by rewrite find_OnMiss_eq, Hk'|by rewrite find_OnMiss_ne].
    + by destruct (Hc k0).
    + destruct (decide (k0 = k')) as [->|Hne];
        [by rewrite find_OnEvict_eq, Hk'|by rewrite find_OnEvict_ne].
    + apply find_ClearAll.
Qed.


(** ** Isolation between keys *)

(** C10: a miss, insert or evict on key [k] leaves the entry of every key
    [k'] that [HKey::operator==] tells apart from [k] unchanged, and with
    it the answers of ShouldSkipInsert and GetInvalidationCount for [k'];
    SetThreshold on (d, c) leaves GetThreshold unchanged on every other
    pair (d', c'). *)
Theorem per_key_isolation (k k' : KVCPKeyCtx) (d c d' c' v : Z) (p : Process) :
  (HKey_eqb (MakeKey k) (MakeKey k') = false →
   ∀ call, call = CallMiss k ∨ call = CallInsert k ∨ call = CallEvict k →
     find k' (KVCPTable_Inst (exec call p).1) = find k' (KVCPTable_Inst p) ∧
     (∀ t, KVCP_ShouldSkipRowCacheInsert k' t (exec call p).1 =
           KVCP_ShouldSkipRowCacheInsert k' t p) ∧
     KVCP_GetInvalidationCount k' (exec call p).1 = KVCP_GetInvalidationCount k' p) ∧
  (KVCP_TKey_eqb (mkTKey d c) (mkTKey d' c') = false →
   KVCP_GetThreshold d' c' (KVCP_SetThreshold d c v p) = KVCP_GetThreshold d' c' p).
Proof.
  split.
  - intros Hneq call Hcall.
    assert (k ≠ k') as Hne.
    { intros ->. rewrite (proj2 (HKey_eqb_spec _ _) eq_refl) in Hneq. discriminate. }
    assert (find k' (KVCPTable_Inst (exec call p).1) = find k' (KVCPTable_Inst p))
      as Hfind.
    { destruct Hcall as [->|[->| ->]]; simpl.
      - by apply find_OnMiss_ne.
      - by apply find_OnInsert_ne.
      - by apply find_OnEvict_ne. }
    split; [done|].
    unfold KVCP_ShouldSkipRowCacheInsert, KVCP_GetInvalidationCount,
      ShouldSkipInsert, GetInvalidation.
    by rewrite Hfind.
  - intros Hneq. unfold KVCP_GetThreshold, KVCP_SetThreshold; simpl.
    apply KVCP_ThresholdTable_Get_Set_ne. intros [= -> ->].
    rewrite (proj2 (KVCP_TKey_eqb_spec _ _) eq_refl) in Hneq. discriminate.
Qed.

(** ** Clearing *)

(** C6: ClearAll empties every shard of the statistics table, so that
    afterwards both counts read 0 and ShouldSkipInsert is false for every
    key and threshold, and it leaves the threshold table as it was: a
    threshold set to [v] before is still [v] afterwards. *)
Theorem ClearAll_spec (p : Process) :
  (∀ i sh, KVCPTable_Inst (KVCP_ClearAll p) !! i = Some sh → map sh = ∅) ∧
  (∀ k, find k (KVCPTable_Inst (KVCP_ClearAll p)) = None ∧
        KVCP_GetInvalidationCount k (KVCP_ClearAll p) = 0 ∧
        KVCP_GetCachedKeyCount k (KVCP_ClearAll p) = 0 ∧
        ∀ t, KVCP_ShouldSkipRowCacheInsert k t (KVCP_ClearAll p) = false) ∧
  KVCP_ThresholdTable_Inst (KVCP_ClearAll p) = KVCP_ThresholdTable_Inst p ∧
  (∀ d c, KVCP_GetThreshold d c (KVCP_ClearAll p) = KVCP_GetThreshold d c p) ∧
  (∀ d c v, Process_wf p →
     KVCP_GetThreshold d c (KVCP_ClearAll (KVCP_SetThreshold d c v p)) = v).
Proof.
  split; [|split; [|split; [|split]]].
  - intros i sh. apply ClearAll_lookup.
  - intros k.
    unfold KVCP_GetInvalidationCount, KVCP_GetCachedKeyCount,
      KVCP_ShouldSkipRowCacheInsert, GetInvalidation, GetCachedKeyCount,
      ShouldSkipInsert; simpl.
    by rewrite find_ClearAll.
  - reflexivity.
  - reflexivity.
  - intros d c v [_ Ht]. unfold KVCP_GetThreshold; simpl.
    by apply KVCP_ThresholdTable_Get_Set_eq.
Qed.

(** ** Thresholds *)

Lemma last_set_snoc d c cs call :
  last_set d c (cs ++ [call]) =
    match call with
    | CallSetThreshold d' c' v =>
        if KVCP_TKey_eqb (mkTKey d' c') (mkTKey d c) then Some v else last_set d c cs
    | _ => last_set d c cs
    end.
Proof. unfold last_set. by rewrite foldl_app. Qed.

Lemma GetThreshold_exec d c call p :
  Process_wf p →
  KVCP_GetThreshold d c (exec call p).1 =
    match call with
    | CallSetThreshold d' c' v =>
        if KVCP_TKey_eqb (mkTKey d' c') (mkTKey d c) then v
        else KVCP_GetThreshold d c p
    | _ => KVCP_GetThreshold d c p
    end.
Proof.
  intros [_ Ht]. destruct call as [| | | | | | |d' c' v| | |]; try reflexivity.
  unfold KVCP_GetThreshold; simpl.
  destruct (KVCP_TKey_eqb _ _) eqn:Heq.
  - apply KVCP_TKey_eqb_spec in Heq as [= -> ->].
    by apply KVCP_ThresholdTable_Get_Set_eq.
  - apply KVCP_ThresholdTable_Get_Set_ne. intros [= -> ->].
    rewrite (proj2 (KVCP_TKey_eqb_spec _ _) eq_refl) in Heq. discriminate.
Qed.

(** C7: after any sequence of calls from startup, GetThreshold(d, c)
    returns the value of the most recent SetThreshold(d, c, v) of the
    sequence, and the default 3 when the sequence has none; in any state a
    Set is read back by the next Get, the later of two Sets winning. *)
Theorem GetThreshold_most_recent (d c : Z) (cs : list Call) :
  KVCP_GetThreshold d c (run cs Process_start) =
    default kKVCPDefaultThreshold (last_set d c cs) ∧
  kKVCPDefaultThreshold = 3 ∧
  (∀ p v v', Process_wf p →
     KVCP_GetThreshold d c (KVCP_SetThreshold d c v p) = v ∧
     KVCP_GetThreshold d c (KVCP_SetThreshold d c v' (KVCP_SetThreshold d c v p)) = v').
Proof.
  split; [|split; [reflexivity|]].
  - induction cs as [|call cs IH] using rev_ind.
    + apply KVCP_ThresholdTable_Get_new.
    + rewrite run_snoc, last_set_snoc, GetThreshold_exec
        by (apply reachable_wf; by exists cs).
      rewrite IH. destruct call; try reflexivity.
      by destruct (KVCP_TKey_eqb _ _).
  - intros p v v' [_ Ht]. unfold KVCP_GetThreshold; simpl. split.
    + by apply KVCP_ThresholdTable_Get_Set_eq.
    + by apply KVCP_ThresholdTable_Get_Set_eq, KVCP_ThresholdTable_Set_wf.
Qed.

(** ** The state machine of one key *)

Lemma find_exec (c : Call) (k : KVCPKeyCtx) (p : Process) :
  Process_wf p →
  find k (KVCPTable_Inst (exec c p).1) = step_entry c k (find k (KVCPTable_Inst p)).
Proof.
  intros [[Hlen _] _].
  destruct c as [k0|k0 th|k0|k0|k0|k0| |d c0 v|d c0|on| ]; simpl; try reflexivity.
  - case_decide as Hk; [subst k0; apply find_OnMiss_eq|by apply find_OnMiss_ne].
  - case_decide as Hk; [subst k0; by apply find_OnInsert_eq|by apply find_OnInsert_ne].
  - case_decide as Hk; [subst k0; apply find_OnEvict_eq|by apply find_OnEvict_ne].
  - apply find_ClearAll.
Qed.

Lemma inserts_snoc cs c :
  inserts (cs ++ [c]) = inserts cs + (match c with CallInsert _ => 1 | _ => 0 end).
Proof.
  induction cs as [|c0 cs IH]; simpl.
  - destruct c; lia.
  - destruct c0; lia.
Qed.

Lemma inserts_nonneg cs : 0 ≤ inserts cs.
Proof. induction cs as [|c0 cs IH]; simpl; [lia|destruct c0; lia]. Qed.

Lemma StatsInv_alt p :
  StatsInv p ↔ ∀ k e, find k (KVCPTable_Inst p) = Some e → 1 ≤ cached_key_count e.
Proof.
  unfold StatsInv. split.
  - intros Hinv k e He. specialize (Hinv k). rewrite He in Hinv. simpl in Hinv.
    apply Hinv. by exists e.
  - intros Hinv k. destruct (find k (KVCPTable_Inst p)) as [e|] eqn:He; simpl.
    + split; [intros _; by apply (Hinv k)|intros _; by exists e].
    + split; [by intros [? ?]|lia].
Qed.

(** One call keeps every cached count between 1 and a bound [b] that
    grows by one with each insert and stays below [2 ^ 32]. *)
Lemma exec_cached_bounds (c : Call) (p : Process) (b : Z) :
  Process_wf p →
  0 ≤ b →
  b + (match c with CallInsert _ => 1 | _ => 0 end) < 2 ^ 32 →
  (∀ k e, find k (KVCPTable_Inst p) = Some e → 1 ≤ cached_key_count e ≤ b) →
  ∀ k e, find k (KVCPTable_Inst (exec c p).1) = Some e →
    1 ≤ cached_key_count e ≤ b + (match c with CallInsert _ => 1 | _ => 0 end).
Proof.
  intros Hwf Hb0 Hb Hinv k e. rewrite find_exec by done.
  specialize (Hinv k). unfold step_entry, wrap32.
  destruct c as [k0|k0 th|k0|k0|k0|k0| |d c0 v|d c0|on| ];
    try (intros He; specialize (Hinv e He); lia).
  - case_decide; [|intros He; specialize (Hinv e He); lia].
    destruct (find k (KVCPTable_Inst p)) as [e0|]; [|done].
    specialize (Hinv e0 eq_refl).
    destruct (0 <? cached_key_count e0); intros [= <-]; simpl; lia.
  - case_decide; [|intros He; specialize (Hinv e He); lia].
    destruct (find k (KVCPTable_Inst p)) as [e0|]; intros [= <-]; simpl.
    + specialize (Hinv e0 eq_refl). rewrite Z.mod_small; lia.
    + rewrite Z.mod_small; lia.
  - case_decide; [|intros He; specialize (Hinv e He); lia].
    destruct (find k (KVCPTable_Inst p)) as [e0|]; [|done].
    specialize (Hinv e0 eq_refl).
    destruct (1 <? cached_key_count e0) eqn:Hc; [|done].
    apply Z.ltb_lt in Hc. intros [= <-]; simpl. rewrite Z.mod_small; lia.
  - done.
Qed.

(** A call that is not an insert at the largest cached count keeps the
    invariant. *)
Lemma exec_StatsInv (c : Call) (p : Process) :
  Process_wf p →
  StatsInv p →
  (∀ k, c = CallInsert k → count_of (find k (KVCPTable_Inst p)) < 2 ^ 32 - 1) →
  StatsInv (exec c p).1.
Proof.
  intros Hwf Hinv Hc. rewrite StatsInv_alt in Hinv. apply StatsInv_alt.
  intros k e. rewrite find_exec by done.
  specialize (Hinv k). unfold step_entry, wrap32.
  destruct c as [k0|k0 th|k0|k0|k0|k0| |d c0 v|d c0|on| ];
    try (intros He; by apply Hinv).
  - case_decide; [|intros He; by apply Hinv].
    destruct (find k (KVCPTable_Inst p)) as [e0|]; [|done].
    specialize (Hinv e0 eq_refl).
    destruct (0 <? cached_key_count e0); intros [= <-]; simpl; lia.
  - case_decide as Hk; [subst k0|intros He; by apply Hinv].
    specialize (Hc k eq_refl).
    destruct (find k (KVCPTable_Inst p)) as [e0|]; intros [= <-]; simpl in *.
    + specialize (Hinv e0 eq_refl). rewrite Z.mod_small; lia.
    + rewrite Z.mod_small; lia.
  - case_decide; [|intros He; by apply Hinv].
    destruct (find k (KVCPTable_Inst p)) as [e0|] eqn:He0; [|done].
    specialize (Hinv e0 eq_refl).
    destruct (AllEntries_find _ _ _ _ (proj2 (proj1 Hwf)) He0) as [[_ Hhi] _].
    destruct (1 <? cached_key_count e0) eqn:Hc1; [|done].
    apply Z.ltb_lt in Hc1. intros [= <-]; simpl. rewrite Z.mod_small; lia.
Qed.

Lemma run_cached_bounds (cs : list Call) :
  inserts cs < 2 ^ 32 →
  ∀ k e, find k (KVCPTable_Inst (run cs Process_start)) = Some e →
    1 ≤ cached_key_count e ≤ inserts cs.
Proof.
  induction cs as [|c cs IH] using rev_ind; intros Hlt k e.
  - simpl. by rewrite find_KVCPTable_new.
  - rewrite inserts_snoc in Hlt |- *. rewrite run_snoc.
    apply exec_cached_bounds.
    + apply reachable_wf. by exists cs.
    + apply inserts_nonneg.
    + done.
    + apply IH. destruct c; lia.
Qed.

(** ** The invariant of the data model *)

(** C2, amended: the invariant "a key has an entry exactly when its
    cached count is at least 1" holds in every state reached from startup
    by a sequence of calls with fewer than [2 ^ 32] inserts; and every call
    keeps it, an insert doing so when the cached count of its key is below
    [2 ^ 32 - 1]. *)
Theorem StatsInv_bounded_inserts :
  (∀ cs, inserts cs < 2 ^ 32 → StatsInv (run cs Process_start)) ∧
  (∀ c p, Process_wf p → StatsInv p →
     (∀ k, c = CallInsert k →
        count_of (find k (KVCPTable_Inst p)) < 2 ^ 32 - 1) →
     StatsInv (exec c p).1).
Proof.
  split.
  - intros cs Hlt. apply StatsInv_alt. intros k e He.
    by destruct (run_cached_bounds cs Hlt k e He).
  - apply exec_StatsInv.
Qed.

(** ** Repeated calls *)

Lemma wrap32_succ (x : Z) : wrap32 (wrap32 x + 1) = wrap32 (x + 1).
Proof. unfold wrap32. apply Zplus_mod_idemp_l. Qed.

Lemma iter_OnInsert_wf k n (t : KVCPTable) :
  KVCPTable_wf t → KVCPTable_wf (N.iter n (OnInsert k) t).
Proof.
  intros Hwf. apply (N.iter_ind _ _ _ (λ _ t', KVCPTable_wf t')); [done|].
  intros _ t' Ht'. by apply OnInsert_wf.
Qed.

Lemma iter_OnMiss_wf k n (t : KVCPTable) :
  KVCPTable_wf t → KVCPTable_wf (N.iter n (OnMiss k) t).
Proof.
  intros Hwf. apply (N.iter_ind _ _ _ (λ _ t', KVCPTable_wf t')); [done|].
  intros _ t' Ht'. by apply OnMiss_wf.
Qed.

Lemma find_iter_OnInsert_succ k n (t : KVCPTable) :
  KVCPTable_wf t →
  find k (N.iter (N.succ n) (OnInsert k) t) =
    Some (mkEntry
            (wrap32 (cached_key_count (default Entry_default (find k t)) + Z.of_N (N.succ n)))
            (invalidation_count (default Entry_default (find k t)))).
Proof.
  intros Hwf. induction n as [|n IH] using N.peano_ind.
  - rewrite N.iter_succ. change (N.iter 0 (OnInsert k) t) with t.
    by rewrite find_OnInsert_eq by apply Hwf.
  - rewrite N.iter_succ, find_OnInsert_eq by apply iter_OnInsert_wf, Hwf.
    rewrite IH. simpl default. cbn [cached_key_count invalidation_count].
    rewrite wrap32_succ. do 3 f_equal. lia.
Qed.

(** [n ≥ 1] inserts on one key: the cached count has grown by [n], modulo
    [2 ^ 32]. *)
Lemma find_iter_OnInsert k n (t : KVCPTable) :
  KVCPTable_wf t → (0 < n)%N →
  find k (N.iter n (OnInsert k) t) =
    Some (mkEntry
            (wrap32 (cached_key_count (default Entry_default (find k t)) + Z.of_N n))
            (invalidation_count (default Entry_default (find k t)))).
Proof.
  intros Hwf Hn. rewrite <- (N.succ_pred n) by lia.
  by apply find_iter_OnInsert_succ.
Qed.

(** [n] misses on a key with a positive cached count: the invalidation
    count has grown by [n], modulo [2 ^ 32]. *)
Lemma find_iter_OnMiss k n (t : KVCPTable) e :
  KVCPTable_wf t → find k t = Some e → 0 < cached_key_count e →
  find k (N.iter n (OnMiss k) t) =
    Some (mkEntry (cached_key_count e) (wrap32 (invalidation_count e + Z.of_N n))).
Proof.
  intros Hwf He Hc. induction n as [|n IH] using N.peano_ind.
  - simpl. rewrite He, Z.add_0_r, wrap32_small; [by destruct e|].
    by destruct (AllEntries_find _ _ _ _ (proj2 Hwf) He).
  - rewrite N.iter_succ, find_OnMiss_eq, IH.
    cbn [cached_key_count invalidation_count].
    apply Z.ltb_lt in Hc as ->. rewrite wrap32_succ. do 3 f_equal. lia.
Qed.

Lemma iter_OnMiss_absent k n (t : KVCPTable) :
  find k t = None → N.iter n (OnMiss k) t = t.
Proof.
  intros Hk. apply (N.iter_ind _ _ _ (λ _ t', t' = t)); [done|].
  intros _ t' ->. apply OnMiss_noop. intros e. by rewrite Hk.
Qed.

Lemma KVCPTable_Inst_iter_Insert k n p :
  KVCPTable_Inst (N.iter n (KVCP_OnRowCacheInsert k) p) =
  N.iter n (OnInsert k) (KVCPTable_Inst p).
Proof. by apply N.iter_swap_gen. Qed.

Lemma KVCPTable_Inst_iter_Miss k n p :
  KVCPTable_Inst (N.iter n (KVCP_OnRowCacheMiss k) p) =
  N.iter n (OnMiss k) (KVCPTable_Inst p).
Proof. by apply N.iter_swap_gen. Qed.

Lemma reachable_iter_Insert k n p :
  reachable p → reachable (N.iter n (KVCP_OnRowCacheInsert k) p).
Proof.
  intros Hp. apply (N.iter_ind _ _ _ (λ _ q, reachable q)); [done|].
  intros _ q Hq. apply (reachable_exec (CallInsert k) q Hq).
Qed.

Lemma reachable_iter_Miss k n p :
  reachable p → reachable (N.iter n (KVCP_OnRowCacheMiss k) p).
Proof.
  intros Hp. apply (N.iter_ind _ _ _ (λ _ q, reachable q)); [done|].
  intros _ q Hq. apply (reachable_exec (CallMiss k) q Hq).
Qed.

(** One insert on a key without entry, then [n] misses. *)
Lemma GetInvalidationCount_Insert_iter_Miss k n p :
  Process_wf p → find k (KVCPTable_Inst p) = None →
  KVCP_GetInvalidationCount k
    (N.iter n (KVCP_OnRowCacheMiss k) (KVCP_OnRowCacheInsert k p)) = wrap32 (Z.of_N n).
Proof.
  intros [Hwf _] Hk. unfold KVCP_GetInvalidationCount, GetInvalidation.
  rewrite KVCPTable_Inst_iter_Miss. simpl KVCPTable_Inst.
  rewrite (find_iter_OnMiss k n _ (mkEntry 1 0)).
  - reflexivity.
  - by apply OnInsert_wf.
  - rewrite find_OnInsert_eq by apply Hwf. by rewrite Hk.
  - simpl. lia.
Qed.

Lemma Process_eta p :
  mkProcess (KVCPTable_Inst p) (KVCP_ThresholdTable_Inst p) (hybrid_enabled p) = p.
Proof. by destruct p. Qed.

(** ** Misses *)

(** C5, amended: the miss hook increments the [uint32_t] invalidation
    count of its key by one when the key has an entry with a positive
    cached count, and changes nothing otherwise, in particular when the key
    has no entry.  After one insert on a key without entry and [n] misses,
    GetInvalidationCount returns [n] modulo [2 ^ 32], which is [n] for
    [n < 2 ^ 32]; misses on a key without entry leave it at 0. *)
Theorem OnRowCacheMiss_spec (k : KVCPKeyCtx) (p : Process) :
  Process_wf p →
  (∀ e, find k (KVCPTable_Inst p) = Some e → cached_key_count e > 0 →
     find k (KVCPTable_Inst (KVCP_OnRowCacheMiss k p)) =
       Some (mkEntry (cached_key_count e) (wrap32 (invalidation_count e + 1))) ∧
     (invalidation_count e < 2 ^ 32 - 1 →
        wrap32 (invalidation_count e + 1) = invalidation_count e + 1)) ∧
  ((∀ e, find k (KVCPTable_Inst p) = Some e → cached_key_count e ≤ 0) →
     KVCP_OnRowCacheMiss k p = p) ∧
  (find k (KVCPTable_Inst p) = None →
     ∀ n : N,
       KVCP_GetInvalidationCount k
         (N.iter n (KVCP_OnRowCacheMiss k) (KVCP_OnRowCacheInsert k p)) =
         wrap32 (Z.of_N n) ∧
       (Z.of_N n < 2 ^ 32 →
          KVCP_GetInvalidationCount k
            (N.iter n (KVCP_OnRowCacheMiss k) (KVCP_OnRowCacheInsert k p)) = Z.of_N n) ∧
       KVCP_GetInvalidationCount k (N.iter n (KVCP_OnRowCacheMiss k) p) = 0).
Proof.
  intros Hwf. split; [|split].
  - intros e He Hc. split.
    + simpl. rewrite find_OnMiss_eq, He. by settle_ltb.
    + intros Hlt. apply wrap32_small.
      destruct (AllEntries_find _ _ _ _ (proj2 (proj1 Hwf)) He) as [_ [? _]].
      unfold is_u32. lia.
  - intros Hnone. unfold KVCP_OnRowCacheMiss. rewrite OnMiss_noop by done.
    apply Process_eta.
  - intros Hk n. split; [|split].
    + by apply GetInvalidationCount_Insert_iter_Miss.
    + intros Hn. rewrite GetInvalidationCount_Insert_iter_Miss by done.
      apply wrap32_small. unfold is_u32. lia.
    + unfold KVCP_GetInvalidationCount, GetInvalidation.
      by rewrite KVCPTable_Inst_iter_Miss, iter_OnMiss_absent, Hk.
Qed.

(** ** Eviction *)

(** What the code of OnRowCacheEvict does, by cached count: nothing when
    its key has no entry; the entry is erased when the cached count is at
    most 1 (then GetInvalidationCount reads 0 and ShouldSkipInsert is
    false at every threshold); the cached count is decremented by one when
    it is above 1.  After insert, insert, evict on a key without entry the
    entry is there with cached count 1, and one more evict removes it.
    The comment on the declaration of KVCP_OnRowCacheEvict documents
    "cached_key_count == 1: remove the entry, otherwise decrement by 1";
    the code departs from it at cached count 0, where it erases. *)
Theorem OnRowCacheEvict_spec (k : KVCPKeyCtx) (p : Process) :
  Process_wf p →
  (find k (KVCPTable_Inst p) = None → KVCP_OnRowCacheEvict k p = p) ∧
  (∀ e, find k (KVCPTable_Inst p) = Some e → cached_key_count e ≤ 1 →
     find k (KVCPTable_Inst (KVCP_OnRowCacheEvict k p)) = None ∧
     KVCP_GetInvalidationCount k (KVCP_OnRowCacheEvict k p) = 0 ∧
     ∀ t, KVCP_ShouldSkipRowCacheInsert k t (KVCP_OnRowCacheEvict k p) = false) ∧
  (∀ e, find k (KVCPTable_Inst p) = Some e → cached_key_count e > 1 →
     find k (KVCPTable_Inst (KVCP_OnRowCacheEvict k p)) =
       Some (mkEntry (cached_key_count e - 1) (invalidation_count e))) ∧
  (find k (KVCPTable_Inst p) = None →
     find k (KVCPTable_Inst
       (KVCP_OnRowCacheEvict k (KVCP_OnRowCacheInsert k (KVCP_OnRowCacheInsert k p)))) =
       Some (mkEntry 1 0) ∧
     find k (KVCPTable_Inst
       (KVCP_OnRowCacheEvict k
         (KVCP_OnRowCacheEvict k (KVCP_OnRowCacheInsert k (KVCP_OnRowCacheInsert k p))))) =
       None).
Proof.
  intros Hwf. split; [|split; [|split]].
  - intros Hk. unfold KVCP_OnRowCacheEvict. rewrite OnEvict_noop by done.
    apply Process_eta.
  - intros e He Hc.
    assert (find k (KVCPTable_Inst (KVCP_OnRowCacheEvict k p)) = None) as Hgone.
    { simpl. rewrite find_OnEvict_eq, He. by settle_ltb. }
    unfold KVCP_GetInvalidationCount, KVCP_ShouldSkipRowCacheInsert,
      GetInvalidation, ShouldSkipInsert.
    by rewrite Hgone.
  - intros e He Hc. simpl. rewrite find_OnEvict_eq, He. settle_ltb.
    rewrite wrap32_small; [done|].
    destruct (AllEntries_find _ _ _ _ (proj2 (proj1 Hwf)) He) as [[? ?] _].
    unfold is_u32. lia.
  - intros Hk. destruct Hwf as [Hwf _].
    assert (find k (KVCPTable_Inst
              (KVCP_OnRowCacheEvict k (KVCP_OnRowCacheInsert k (KVCP_OnRowCacheInsert k p))))
            = Some (mkEntry 1 0)) as Hone.
    { simpl. rewrite find_OnEvict_eq.
      rewrite find_OnInsert_eq by (apply OnInsert_wf, Hwf).
      rewrite find_OnInsert_eq by apply Hwf. by rewrite Hk. }
    split; [done|].
    simpl in *. by rewrite find_OnEvict_eq, Hone.
Qed.

(** ** The cached count getter *)

(** C8: GetCachedKeyCount returns the cached count of the entry of its
    key, 0 when the key has no entry, and leaves the state unchanged; it
    follows the counter that the insert hook increments. *)
Theorem GetCachedKeyCount_spec (k : KVCPKeyCtx) (p : Process) :
  (∀ e, find k (KVCPTable_Inst p) = Some e →
     KVCP_GetCachedKeyCount k p = cached_key_count e) ∧
  (find k (KVCPTable_Inst p) = None → KVCP_GetCachedKeyCount k p = 0) ∧
  exec (CallGetCachedKeyCount k) p = (p, RetU32 (KVCP_GetCachedKeyCount k p)) ∧
  (Process_wf p →
     KVCP_GetCachedKeyCount k (KVCP_OnRowCacheInsert k p) =
       wrap32 (KVCP_GetCachedKeyCount k p + 1)).
Proof.
  unfold KVCP_GetCachedKeyCount, GetCachedKeyCount. split; [|split; [|split]].
  - by intros e ->.
  - by intros ->.
  - reflexivity.
  - intros [[Hlen _] _]. simpl. rewrite find_OnInsert_eq by done.
    by destruct (find k (KVCPTable_Inst p)).
Qed.

(** ** The hybrid-mode flag *)

Lemma hybrid_enabled_run cs p :
  Forall (λ c, is_SetHybridEnabled c = false) cs →
  hybrid_enabled (run cs p) = hybrid_enabled p.
Proof.
  induction cs as [|c cs IH] using rev_ind; [done|].
  rewrite Forall_app, Forall_singleton. intros [Hcs Hc]. rewrite run_snoc.
  rewrite <- (IH Hcs). destruct c; simpl in *; done.
Qed.

(** C9: IsHybridEnabled returns false at startup and until the first
    SetHybridEnabled; after SetHybridEnabled(b) it returns [b], until the
    next SetHybridEnabled; setting the flag leaves both tables unchanged,
    and every other call does and returns the same whatever the flag is. *)
Theorem HybridEnabled_spec :
  KVCP_IsHybridEnabled Process_start = false ∧
  (∀ cs, Forall (λ c, is_SetHybridEnabled c = false) cs →
     KVCP_IsHybridEnabled (run cs Process_start) = false) ∧
  (∀ b p, KVCP_IsHybridEnabled (KVCP_SetHybridEnabled b p) = b) ∧
  (∀ b p cs, Forall (λ c, is_SetHybridEnabled c = false) cs →
     KVCP_IsHybridEnabled (run cs (KVCP_SetHybridEnabled b p)) = b) ∧
  (∀ b p,
     KVCPTable_Inst (KVCP_SetHybridEnabled b p) = KVCPTable_Inst p ∧
     KVCP_ThresholdTable_Inst (KVCP_SetHybridEnabled b p) = KVCP_ThresholdTable_Inst p) ∧
  (∀ c b p, is_hybrid_call c = false →
     exec c (KVCP_SetHybridEnabled b p) =
       (KVCP_SetHybridEnabled b (exec c p).1, (exec c p).2)).
Proof.
  split; [reflexivity|]. split; [|split; [reflexivity|split; [|split]]].
  - intros cs Hcs. unfold KVCP_IsHybridEnabled. by rewrite hybrid_enabled_run.
  - intros b p cs Hcs. unfold KVCP_IsHybridEnabled. by rewrite hybrid_enabled_run.
  - done.
  - intros c b p Hc. destruct p as [st th hy]. by destruct c.
Qed.

(** ** At the wrap-around of the counters *)

Lemma StatsInv_start : StatsInv Process_start.
Proof. apply StatsInv_alt. intros k e. simpl. by rewrite find_KVCPTable_new. Qed.

(** [n ≥ 1] inserts of one key from startup. *)
Lemma find_iter_Insert_start k n :
  (0 < n)%N →
  find k (KVCPTable_Inst (N.iter n (KVCP_OnRowCacheInsert k) Process_start)) =
    Some (mkEntry (wrap32 (Z.of_N n)) 0).
Proof.
  intros Hn. rewrite KVCPTable_Inst_iter_Insert.
  rewrite find_iter_OnInsert by (apply KVCPTable_new_wf || done).
  change (KVCPTable_Inst Process_start) with KVCPTable_new.
  by rewrite find_KVCPTable_new.
Qed.

(** * Further properties of the tables *)

(** ** The mutators as updates of one slot *)

Lemma OnMiss_partial_alter k (t : KVCPTable) :
  OnMiss k t = ShardUpd k (partial_alter miss_entry (MakeKey k)) t.
Proof.
  unfold OnMiss, ShardUpd. apply list_alter_ext; [|done]. intros sh _. f_equal.
  apply map_eq. intros j. rewrite lookup_partial_alter. unfold miss_entry.
  destruct (map sh !! MakeKey k) as [e|] eqn:He.
  - destruct (0 <? cached_key_count e).
    + by rewrite lookup_insert.
    + case_decide; by subst.
  - case_decide; by subst.
Qed.

Lemma OnInsert_partial_alter k (t : KVCPTable) :
  OnInsert k t = ShardUpd k (partial_alter insert_entry (MakeKey k)) t.
Proof.
  unfold OnInsert, ShardUpd. apply list_alter_ext; [|done]. intros sh _. f_equal.
  apply map_eq. intros j. by rewrite lookup_partial_alter, lookup_insert.
Qed.

Lemma OnEvict_partial_alter k (t : KVCPTable) :
  OnEvict k t = ShardUpd k (partial_alter evict_entry (MakeKey k)) t.
Proof.
  unfold OnEvict, ShardUpd. apply list_alter_ext; [|done]. intros sh _. f_equal.
  apply map_eq. intros j. rewrite lookup_partial_alter. unfold evict_entry.
  destruct (map sh !! MakeKey k) as [e|] eqn:He.
  - destruct (1 <? cached_key_count e).
    + by rewrite lookup_insert.
    + rewrite lookup_delete. by case_decide.
  - case_decide; by subst.
Qed.

Lemma exec_writes_key c k p :
  writes_key c k →
  (exec c p).1 =
    mkProcess (ShardUpd k (partial_alter (key_update c) (MakeKey k)) (KVCPTable_Inst p))
              (KVCP_ThresholdTable_Inst p) (hybrid_enabled p).
Proof.
  intros [->|[->| ->]]; simpl.
  - unfold KVCP_OnRowCacheMiss. by rewrite OnMiss_partial_alter.
  - unfold KVCP_OnRowCacheInsert. by rewrite OnInsert_partial_alter.
  - unfold KVCP_OnRowCacheEvict. by rewrite OnEvict_partial_alter.
Qed.

Lemma ShardUpd_partial_alter_commute k k' f g (t : KVCPTable) :
  k ≠ k' →
  ShardUpd k (partial_alter f (MakeKey k))
    (ShardUpd k' (partial_alter g (MakeKey k')) t) =
  ShardUpd k' (partial_alter g (MakeKey k'))
    (ShardUpd k (partial_alter f (MakeKey k)) t).
Proof.
  intros Hne. unfold ShardUpd.
  destruct (decide (Z.to_nat (ShardIdx k) = Z.to_nat (ShardIdx k'))) as [Heq|Hi].
  - rewrite Heq, !list_alter_alter_eq. apply list_alter_ext; [|done].
    intros sh _. simpl. f_equal. apply partial_alter_partial_alter_ne.
    intros Hk. by apply Hne, MakeKey_inj.
  - by apply list_alter_alter_ne.
Qed.

(** ** Shards *)

Lemma HKey_shard_MakeKey k : HKey_shard (MakeKey k) = Z.to_nat (ShardIdx k).
Proof. reflexivity. Qed.

Lemma Placed_new : Placed KVCPTable_new.
Proof.
  intros i sh hk [-> _]%lookup_replicate. simpl. rewrite lookup_empty.
  by intros [? ?].
Qed.

Lemma Placed_ShardUpd k f (t : KVCPTable) :
  Placed t → Placed (ShardUpd k (partial_alter f (MakeKey k)) t).
Proof.
  intros Hpl i sh hk. unfold ShardUpd. rewrite list_lookup_alter.
  case_decide as Hi; [subst i|by apply Hpl].
  destruct (t !! Z.to_nat (ShardIdx k)) as [sh0|] eqn:Hsh0; simpl; [|done].
  intros [= <-]; simpl. rewrite lookup_partial_alter.
  case_decide as Hk; [by subst hk|]. by apply (Hpl _ _ _ Hsh0).
Qed.

Lemma Placed_ClearAll (t : KVCPTable) : Placed (ClearAll t).
Proof.
  intros i sh hk Hsh. rewrite (ClearAll_lookup _ _ _ Hsh), lookup_empty.
  by intros [? ?].
Qed.

Lemma KVCP_ThresholdTable_Placed_new :
  KVCP_ThresholdTable_Placed KVCP_ThresholdTable_new.
Proof.
  intros i sh tk [-> _]%lookup_replicate. simpl. rewrite lookup_empty.
  by intros [? ?].
Qed.

Lemma KVCP_ThresholdTable_Placed_Set d c v (t : KVCP_ThresholdTable) :
  KVCP_ThresholdTable_Placed t →
  KVCP_ThresholdTable_Placed (KVCP_ThresholdTable_Set d c v t).
Proof.
  intros Hpl i sh tk. rewrite KVCP_ThresholdTable_Set_alt, list_lookup_alter.
  case_decide as Hi; [subst i|by apply Hpl].
  destruct (t !! _) as [sh0|] eqn:Hsh0; simpl; [|done].
  intros [= <-]; simpl. rewrite lookup_insert.
  case_decide as Hk; [by subst tk|]. by apply (Hpl _ _ _ Hsh0).
Qed.

Lemma reachable_Placed p :
  reachable p →
  Placed (KVCPTable_Inst p) ∧ KVCP_ThresholdTable_Placed (KVCP_ThresholdTable_Inst p).
Proof.
  revert p. apply (reachable_ind (λ p,
    Placed (KVCPTable_Inst p) ∧ KVCP_ThresholdTable_Placed (KVCP_ThresholdTable_Inst p))).
  - split; [apply Placed_new|apply KVCP_ThresholdTable_Placed_new].
  - intros c q _ [Hs Ht].
    destruct c as [k0|k0 th|k0|k0|k0|k0| |d c0 v|d c0|on| ]; simpl;
      (split; [|try done]); try done.
    + rewrite OnMiss_partial_alter. by apply Placed_ShardUpd.
    + rewrite OnInsert_partial_alter. by apply Placed_ShardUpd.
    + rewrite OnEvict_partial_alter. by apply Placed_ShardUpd.
    + apply Placed_ClearAll.
    + by apply KVCP_ThresholdTable_Placed_Set.
Qed.

(** X1: in every reachable state both tables have exactly kShards = 64
    shards, and the index that ShardIdx computes for any key, in either
    table, is below 64: [shards_[ShardIdx(k)]] always addresses an existing
    shard. *)
Theorem shard_index_in_range (p : Process) (k : KVCPKeyCtx) (d c : Z) :
  reachable p →
  length (KVCPTable_Inst p) = 64%nat ∧
  length (KVCP_ThresholdTable_Inst p) = 64%nat ∧
  0 ≤ ShardIdx k < 64 ∧
  0 ≤ KVCP_ThresholdTable_ShardIdx d c < 64 ∧
  is_Some (KVCPTable_Inst p !! Z.to_nat (ShardIdx k)) ∧
  is_Some (KVCP_ThresholdTable_Inst p !! Z.to_nat (KVCP_ThresholdTable_ShardIdx d c)).
Proof.
  intros [[Hs _] Ht]%reachable_wf.
  pose proof (ShardIdx_range k) as Hk.
  pose proof (KVCP_ThresholdTable_ShardIdx_range d c) as Hdc.
  unfold KVCP_ThresholdTable_wf in Ht. change (Z.to_nat kShards) with 64%nat in *.
  change kShards with 64 in *.
  repeat split; try done; try lia.
  - apply lookup_lt_is_Some. lia.
  - apply lookup_lt_is_Some. lia.
Qed.

(** X2: in every reachable state each key stored in a shard of either
    table is in the shard that its bucket hash (HKeyHash, KVCP_TKeyHash)
    selects under the mask [kShards - 1]; hence no key is stored in two
    shards, and a key has an entry in some shard exactly when the lookup in
    the shard of ShardIdx finds it. *)
Theorem keys_in_their_shard (p : Process) :
  reachable p →
  Placed (KVCPTable_Inst p) ∧
  KVCP_ThresholdTable_Placed (KVCP_ThresholdTable_Inst p) ∧
  (∀ i j sh sh' hk,
     KVCPTable_Inst p !! i = Some sh → KVCPTable_Inst p !! j = Some sh' →
     is_Some (map sh !! hk) → is_Some (map sh' !! hk) → i = j) ∧
  ∀ k e,
    (∃ i sh, KVCPTable_Inst p !! i = Some sh ∧ map sh !! MakeKey k = Some e) ↔
    find k (KVCPTable_Inst p) = Some e.
Proof.
  intros [Hs Ht]%reachable_Placed. split; [done|]. split; [done|]. split.
  { intros i j sh sh' hk Hi Hj Hk Hk'.
    by rewrite <- (Hs _ _ _ Hi Hk), <- (Hs _ _ _ Hj Hk'). }
  intros k e. split.
  - intros (i & sh & Hsh & He). rewrite find_alt.
    assert (HKey_shard (MakeKey k) = i) as Hi by (eapply Hs; eauto).
    rewrite HKey_shard_MakeKey in Hi. by rewrite Hi, Hsh.
  - intros (sh & Hsh & He)%find_Some_lookup. eauto.
Qed.

(** X3: a miss, insert or evict on key [k] changes no shard other than
    the one of index ShardIdx(k), whose mutex it holds, keeps the number of
    shards and leaves the threshold table alone; SetThreshold changes no
    shard of the threshold table other than the one of its (db, cf) and
    leaves the statistics table alone. *)
Theorem writes_stay_in_one_shard (c : Call) (k : KVCPKeyCtx) (d cf v : Z)
    (i : nat) (p : Process) :
  (writes_key c k → i ≠ Z.to_nat (ShardIdx k) →
     KVCPTable_Inst (exec c p).1 !! i = KVCPTable_Inst p !! i ∧
     length (KVCPTable_Inst (exec c p).1) = length (KVCPTable_Inst p) ∧
     KVCP_ThresholdTable_Inst (exec c p).1 = KVCP_ThresholdTable_Inst p) ∧
  (i ≠ Z.to_nat (KVCP_ThresholdTable_ShardIdx d cf) →
     KVCP_ThresholdTable_Inst (KVCP_SetThreshold d cf v p) !! i =
       KVCP_ThresholdTable_Inst p !! i ∧
     length (KVCP_ThresholdTable_Inst (KVCP_SetThreshold d cf v p)) =
       length (KVCP_ThresholdTable_Inst p) ∧
     KVCPTable_Inst (KVCP_SetThreshold d cf v p) = KVCPTable_Inst p).
Proof.
  split.
  - intros Hc Hi. rewrite (exec_writes_key c k p Hc). simpl. unfold ShardUpd.
    split; [by apply list_lookup_alter_ne|]. split; [apply length_alter|done].
  - intros Hi. simpl. unfold KVCP_ThresholdTable_Set.
    split; [by apply list_lookup_alter_ne|]. split; [apply length_alter|done].
Qed.

(** ** Calls on different keys commute *)

(** X4: two calls among miss, insert and evict that are on different keys
    commute: either order leads to the same state. *)
Theorem writes_on_distinct_keys_commute (c c' : Call) (k k' : KVCPKeyCtx)
    (p : Process) :
  k ≠ k' → writes_key c k → writes_key c' k' →
  (exec c' (exec c p).1).1 = (exec c (exec c' p).1).1.
Proof.
  intros Hne Hc Hc'.
  rewrite (exec_writes_key c' k' _ Hc'), (exec_writes_key c k p Hc).
  rewrite (exec_writes_key c k _ Hc), (exec_writes_key c' k' p Hc'). simpl.
  f_equal. symmetry. by apply ShardUpd_partial_alter_commute.
Qed.

(** ** Insert and evict *)

Lemma OnEvict_OnInsert_id k (t : KVCPTable) :
  (∀ e, find k t = Some e → 1 ≤ cached_key_count e < 2 ^ 32 - 1) →
  OnEvict k (OnInsert k t) = t.
Proof.
  intros Hk. rewrite OnEvict_partial_alter, OnInsert_partial_alter.
  unfold ShardUpd. rewrite list_alter_alter_eq. apply list_eq. intros j.
  rewrite list_lookup_alter. case_decide as Hj; [subst j|done].
  rewrite find_alt in Hk.
  destruct (t !! Z.to_nat (ShardIdx k)) as [[m]|]; simpl in *; [|done].
  do 2 f_equal. rewrite partial_alter_partial_alter_eq. apply partial_alter_id.
  simpl. unfold insert_entry, evict_entry.
  destruct (m !! MakeKey k) as [[cnt inv]|]; simpl in *; [|done].
  specialize (Hk _ eq_refl). simpl in Hk.
  rewrite (wrap32_small (cnt + 1)) by (unfold is_u32; lia). settle_ltb.
  rewrite wrap32_small by (unfold is_u32; lia). do 2 f_equal. lia.
Qed.

Lemma KVCP_Evict_Insert_id k p :
  (∀ e, find k (KVCPTable_Inst p) = Some e → 1 ≤ cached_key_count e < 2 ^ 32 - 1) →
  KVCP_OnRowCacheEvict k (KVCP_OnRowCacheInsert k p) = p.
Proof.
  intros Hk. unfold KVCP_OnRowCacheEvict, KVCP_OnRowCacheInsert. simpl.
  rewrite OnEvict_OnInsert_id by done. apply Process_eta.
Qed.

(** X5: an insert followed by an evict on the same key restores the
    state, when the key has no entry or an entry whose cached count is at
    least 1 and below 2^32 - 1. *)
Theorem Evict_after_Insert_restores (k : KVCPKeyCtx) (p : Process) :
  (∀ e, find k (KVCPTable_Inst p) = Some e → 1 ≤ cached_key_count e < 2 ^ 32 - 1) →
  KVCP_OnRowCacheEvict k (KVCP_OnRowCacheInsert k p) = p.
Proof. apply KVCP_Evict_Insert_id. Qed.

(** X6: on a key without entry, [n] inserts followed by [n] evicts
    restore the state, for every [n] below 2^32. *)
Theorem n_Inserts_n_Evicts_restore (k : KVCPKeyCtx) (n : N) (p : Process) :
  Process_wf p →
  find k (KVCPTable_Inst p) = None →
  Z.of_N n < 2 ^ 32 →
  N.iter n (KVCP_OnRowCacheEvict k) (N.iter n (KVCP_OnRowCacheInsert k) p) = p.
Proof.
  intros [Hwf _] Hk. induction n as [|n IH] using N.peano_ind; intros Hn; [done|].
  rewrite N.iter_succ_r, (N.iter_succ n _ (KVCP_OnRowCacheInsert k)).
  rewrite KVCP_Evict_Insert_id; [apply IH; lia|].
  intros e. rewrite KVCPTable_Inst_iter_Insert.
  destruct (N.eq_dec n 0%N) as [->|Hn0]; [simpl; by rewrite Hk|].
  rewrite find_iter_OnInsert, Hk by (done || lia). intros [= <-]; simpl.
  rewrite wrap32_small; unfold is_u32; lia.
Qed.

(** ** The decision and the invalidation count *)

(** X7: ShouldSkipInsert(k, t) returning true implies
    GetInvalidationCount(k) >= t; for a positive threshold it is the
    comparison of the threshold with GetInvalidationCount(k); and it is
    monotone: true at [t], it is true at every smaller threshold. *)
Theorem ShouldSkip_and_GetInvalidationCount (k : KVCPKeyCtx) (t t' : Z) (p : Process) :
  (KVCP_ShouldSkipRowCacheInsert k t p = true → t ≤ KVCP_GetInvalidationCount k p) ∧
  (0 < t →
     KVCP_ShouldSkipRowCacheInsert k t p = (t <=? KVCP_GetInvalidationCount k p)) ∧
  (t' ≤ t → KVCP_ShouldSkipRowCacheInsert k t p = true →
     KVCP_ShouldSkipRowCacheInsert k t' p = true).
Proof.
  unfold KVCP_ShouldSkipRowCacheInsert, KVCP_GetInvalidationCount,
    ShouldSkipInsert, GetInvalidation.
  destruct (find k (KVCPTable_Inst p)) as [e|]; split; [|split| |split];
    try discriminate.
  - by intros ?%Z.leb_le.
  - done.
  - intros Hle Ht%Z.leb_le. apply Z.leb_le. lia.
  - intros Ht. symmetry. apply Z.leb_gt. lia.
Qed.

Lemma GetInvalidation_OnInsert k k' (t : KVCPTable) :
  GetInvalidation k' (OnInsert k t) = GetInvalidation k' t.
Proof.
  unfold GetInvalidation. destruct (decide (k = k')) as [<-|Hne].
  - unfold OnInsert. rewrite find_ShardUpd_alt, find_alt.
    destruct (t !! Z.to_nat (ShardIdx k)) as [sh|]; [|done].
    rewrite lookup_insert_eq. by destruct (map sh !! MakeKey k).
  - by rewrite find_OnInsert_ne.
Qed.

(** X8: an insert changes the invalidation count that
    GetInvalidationCount reports for no key, its own included (a new entry
    starts at 0, which is what an absent key reports); so it changes the
    answer of ShouldSkipInsert at no positive threshold. *)
Theorem Insert_keeps_invalidation_counts (k k' : KVCPKeyCtx) (t : Z) (p : Process) :
  KVCP_GetInvalidationCount k' (KVCP_OnRowCacheInsert k p) =
    KVCP_GetInvalidationCount k' p ∧
  (0 < t →
     KVCP_ShouldSkipRowCacheInsert k' t (KVCP_OnRowCacheInsert k p) =
       KVCP_ShouldSkipRowCacheInsert k' t p).
Proof.
  assert (KVCP_GetInvalidationCount k' (KVCP_OnRowCacheInsert k p) =
          KVCP_GetInvalidationCount k' p) as Hinv
    by apply GetInvalidation_OnInsert.
  split; [done|]. intros Ht.
  assert (∀ q, KVCP_ShouldSkipRowCacheInsert k' t q =
               (t <=? KVCP_GetInvalidationCount k' q)) as Hskip.
  { intros q. unfold KVCP_ShouldSkipRowCacheInsert, KVCP_GetInvalidationCount,
      ShouldSkipInsert, GetInvalidation.
    destruct (find k' (KVCPTable_Inst q)); [done|]. symmetry. apply Z.leb_gt. lia. }
  by rewrite !Hskip, Hinv.
Qed.

Lemma misses_snoc k cs c :
  misses k (cs ++ [c]) =
    misses k cs +
    (match c with CallMiss k0 => if decide (k0 = k) then 1 else 0 | _ => 0 end).
Proof.
  induction cs as [|c0 cs IH]; simpl.
  - destruct c; lia.
  - destruct c0; lia.
Qed.

Lemma misses_nonneg k cs : 0 ≤ misses k cs.
Proof.
  induction cs as [|c0 cs IH]; simpl; [lia|].
  destruct c0; try lia. case_decide; lia.
Qed.

Lemma run_invalidation_bound k cs e :
  find k (KVCPTable_Inst (run cs Process_start)) = Some e →
  0 ≤ invalidation_count e ≤ misses k cs.
Proof.
  revert e. induction cs as [|c cs IH] using rev_ind; intros e.
  - simpl. by rewrite find_KVCPTable_new.
  - rewrite run_snoc, misses_snoc, find_exec by (apply reachable_wf; by exists cs).
    pose proof (misses_nonneg k cs) as Hm.
    destruct (find k (KVCPTable_Inst (run cs Process_start))) as [e0|] eqn:He0.
    + specialize (IH e0 eq_refl). unfold step_entry.
      destruct c as [k0|k0 th|k0|k0|k0|k0| |d c0 v|d c0|on| ];
        try (intros [= <-]; lia); try done.
      * case_decide; [|intros [= <-]; lia].
        destruct (0 <? cached_key_count e0); intros [= <-]; simpl; [|lia].
        unfold wrap32.
        pose proof (Z.mod_pos_bound (invalidation_count e0 + 1) (2 ^ 32)).
        pose proof (Z.mod_le (invalidation_count e0 + 1) (2 ^ 32)). lia.
      * case_decide; intros [= <-]; simpl; lia.
      * case_decide; [|intros [= <-]; lia].
        destruct (1 <? cached_key_count e0); intros [= <-]; simpl; lia.
    + unfold step_entry.
      destruct c as [k0|k0 th|k0|k0|k0|k0| |d c0 v|d c0|on| ]; try done.
      * by case_decide.
      * case_decide; [|done]. intros [= <-]; simpl. lia.
      * by case_decide.
Qed.

(** X9: after any sequence of calls from startup, GetInvalidationCount(k)
    is at most the number of miss calls on [k] in the sequence; so
    ShouldSkipInsert(k, t) is true only if [k] was missed at least [t]
    times. *)
Theorem invalidations_bounded_by_misses (k : KVCPKeyCtx) (t : Z) (cs : list Call) :
  0 ≤ KVCP_GetInvalidationCount k (run cs Process_start) ≤ misses k cs ∧
  (KVCP_ShouldSkipRowCacheInsert k t (run cs Process_start) = true →
     t ≤ misses k cs).
Proof.
  pose proof (run_invalidation_bound k cs) as Hb.
  pose proof (misses_nonneg k cs) as Hm.
  unfold KVCP_GetInvalidationCount, KVCP_ShouldSkipRowCacheInsert,
    GetInvalidation, ShouldSkipInsert.
  destruct (find k (KVCPTable_Inst (run cs Process_start))) as [e|].
  - specialize (Hb e eq_refl). split; [lia|]. intros ?%Z.leb_le. lia.
  - split; [lia|discriminate].
Qed.

(** X10: on a key without entry, after one insert and [n] misses with
    [n] below 2^32, ShouldSkipInsert(k, t) is the comparison [t <= n]: the
    key starts to be skipped exactly at its [t]-th miss. *)
Theorem skipped_from_the_t_th_miss (k : KVCPKeyCtx) (t : Z) (n : N) (p : Process) :
  Process_wf p →
  find k (KVCPTable_Inst p) = None →
  Z.of_N n < 2 ^ 32 →
  KVCP_ShouldSkipRowCacheInsert k t
    (N.iter n (KVCP_OnRowCacheMiss k) (KVCP_OnRowCacheInsert k p)) = (t <=? Z.of_N n).
Proof.
  intros [Hwf _] Hk Hn. unfold KVCP_ShouldSkipRowCacheInsert, ShouldSkipInsert.
  rewrite KVCPTable_Inst_iter_Miss. simpl KVCPTable_Inst.
  rewrite (find_iter_OnMiss k n _ (mkEntry 1 0)).
  - simpl. rewrite wrap32_small; [done|]. unfold is_u32. lia.
  - by apply OnInsert_wf.
  - rewrite find_OnInsert_eq by apply Hwf. by rewrite Hk.
  - simpl. lia.
Qed.

(** X11: a miss creates no entry, removes none and changes no cached
    count, for any key. *)
Theorem Miss_keeps_entries_and_counts (k k' : KVCPKeyCtx) (p : Process) :
  (is_Some (find k' (KVCPTable_Inst (KVCP_OnRowCacheMiss k p))) ↔
   is_Some (find k' (KVCPTable_Inst p))) ∧
  count_of (find k' (KVCPTable_Inst (KVCP_OnRowCacheMiss k p))) =
    count_of (find k' (KVCPTable_Inst p)).
Proof.
  simpl. destruct (decide (k = k')) as [<-|Hne]; [|by rewrite find_OnMiss_ne].
  rewrite find_OnMiss_eq. destruct (find k (KVCPTable_Inst p)) as [e|]; [|done].
  split; [split; by eauto|]. simpl. by destruct (0 <? cached_key_count e).
Qed.

(** ** Clearing and constructing *)

Lemma ClearAll_replicate (t : KVCPTable) :
  ClearAll t = replicate (length t) (mkShard ∅).
Proof.
  unfold ClearAll. induction t as [|sh t IH]; [done|].
  rewrite fmap_cons, IH. done.
Qed.

(** X12: in every reachable state ClearAll leaves the statistics table as
    the constructor builds it, kShards empty shards; clearing twice is the
    same as clearing once. *)
Theorem ClearAll_restores_constructed_table (p : Process) :
  reachable p →
  KVCPTable_Inst (KVCP_ClearAll p) = KVCPTable_new ∧
  KVCP_ClearAll (KVCP_ClearAll p) = KVCP_ClearAll p.
Proof.
  intros [[Hlen _] _]%reachable_wf. unfold KVCP_ClearAll. simpl.
  rewrite !ClearAll_replicate, length_replicate, Hlen. done.
Qed.

(** ** Setting thresholds *)

(** X13: at the level of the whole threshold table, a second Set on the
    same (db, cf) overwrites the first, and Sets on different (db, cf)
    commute. *)
Theorem SetThreshold_overwrites_and_commutes (d c d' c' v v' : Z) (p : Process) :
  KVCP_SetThreshold d c v' (KVCP_SetThreshold d c v p) = KVCP_SetThreshold d c v' p ∧
  ((d, c) ≠ (d', c') →
     KVCP_SetThreshold d c v (KVCP_SetThreshold d' c' v' p) =
     KVCP_SetThreshold d' c' v' (KVCP_SetThreshold d c v p)).
Proof.
  unfold KVCP_SetThreshold. simpl. rewrite !KVCP_ThresholdTable_Set_alt. split.
  - f_equal. rewrite list_alter_alter_eq. apply list_alter_ext; [|done].
    intros sh _. simpl. by rewrite insert_insert_eq.
  - intros Hne. f_equal.
    assert (mkTKey d c ≠ mkTKey d' c') as Hk by (intros [= -> ->]; by apply Hne).
    destruct (decide (Z.to_nat (KVCP_ThresholdTable_ShardIdx d c) =
                      Z.to_nat (KVCP_ThresholdTable_ShardIdx d' c'))) as [Heq|Hi].
    + rewrite Heq, !list_alter_alter_eq. apply list_alter_ext; [|done].
      intros sh _. simpl. by rewrite insert_insert_ne.
    + by apply list_alter_alter_ne.
Qed.

(** ** Counting inserts *)

(** X14: [n >= 1] inserts on one key add [n] to its cached count modulo
    2^32 and keep its invalidation count; on a key without entry and for
    [n] below 2^32 the entry is then (cached [n], invalidations 0). *)
Theorem n_Inserts_count (k : KVCPKeyCtx) (n : N) (p : Process) :
  Process_wf p → (0 < n)%N →
  find k (KVCPTable_Inst (N.iter n (KVCP_OnRowCacheInsert k) p)) =
    Some (mkEntry
            (wrap32 (cached_key_count (default Entry_default (find k (KVCPTable_Inst p)))
                     + Z.of_N n))
            (invalidation_count (default Entry_default (find k (KVCPTable_Inst p))))) ∧
  (find k (KVCPTable_Inst p) = None → Z.of_N n < 2 ^ 32 →
     find k (KVCPTable_Inst (N.iter n (KVCP_OnRowCacheInsert k) p)) =
       Some (mkEntry (Z.of_N n) 0)).
Proof.
  intros [Hwf _] Hn. rewrite KVCPTable_Inst_iter_Insert.
  rewrite find_iter_OnInsert by done. split; [done|].
  intros -> Hlt. simpl. rewrite wrap32_small; [done|]. unfold is_u32. lia.
Qed.

(** ** Eviction and history *)

(** X15: when an evict deletes the entry of a key (cached count at most
    1), the next insert of the key starts from (cached 1, invalidations 0):
    GetInvalidationCount is 0 and ShouldSkipInsert is false at every
    positive threshold, whatever the count was before. *)
Theorem Insert_after_full_Evict_starts_afresh (k : KVCPKeyCtx) (e : Entry)
    (p : Process) :
  Process_wf p →
  find k (KVCPTable_Inst p) = Some e → cached_key_count e ≤ 1 →
  find k (KVCPTable_Inst (KVCP_OnRowCacheInsert k (KVCP_OnRowCacheEvict k p))) =
    Some (mkEntry 1 0) ∧
  KVCP_GetInvalidationCount k (KVCP_OnRowCacheInsert k (KVCP_OnRowCacheEvict k p)) = 0 ∧
  ∀ t, 0 < t →
    KVCP_ShouldSkipRowCacheInsert k t
      (KVCP_OnRowCacheInsert k (KVCP_OnRowCacheEvict k p)) = false.
Proof.
  intros [Hwf _] He Hc.
  assert (find k (KVCPTable_Inst (KVCP_OnRowCacheInsert k (KVCP_OnRowCacheEvict k p))) =
          Some (mkEntry 1 0)) as Hnew.
  { simpl. rewrite find_OnInsert_eq by (apply OnEvict_wf, Hwf).
    rewrite find_OnEvict_eq, He. by settle_ltb. }
  split; [done|].
  unfold KVCP_GetInvalidationCount, KVCP_ShouldSkipRowCacheInsert,
    GetInvalidation, ShouldSkipInsert.
  rewrite Hnew. split; [done|]. intros t Ht. simpl. apply Z.leb_gt. lia.
Qed.

End Policy.

(** * Closed instances

    The parameter is [Hash64_sample]; the keys are [ctx_abc] and
    [ctx_abd]. *)

(** After [2 ^ 32] inserts of one key its entry is there with cached
    count 0. *)
Lemma find_after_2p32_inserts :
  find Hash64_sample ctx_abc
    (KVCPTable_Inst
       (N.iter 4294967296 (KVCP_OnRowCacheInsert Hash64_sample ctx_abc) Process_start)) =
  Some (mkEntry 0 0).
Proof. by rewrite find_iter_Insert_start. Qed.

(** C2, as stated, fails: the state after [2 ^ 32] inserts of one key is
    reachable, and there the key has an entry whose cached count is 0. *)
Lemma StatsInv_counterexample :
  reachable Hash64_sample
    (N.iter 4294967296 (KVCP_OnRowCacheInsert Hash64_sample ctx_abc) Process_start) ∧
  ¬ StatsInv Hash64_sample
    (N.iter 4294967296 (KVCP_OnRowCacheInsert Hash64_sample ctx_abc) Process_start).
Proof.
  split.
  - apply reachable_iter_Insert, reachable_start.
  - intros Hinv. specialize (Hinv ctx_abc).
    rewrite find_after_2p32_inserts in Hinv. simpl in Hinv.
    assert (1 ≤ 0) by (apply Hinv; by eexists). lia.
Qed.

(** C4: the code at the failing input.  In the reachable state after
    [2 ^ 32] inserts of one key the entry of the key has cached count 0,
    not 1; there OnRowCacheEvict erases the entry, where the claim and the
    comment on the declaration of KVCP_OnRowCacheEvict ("== 1: remove the
    entry, otherwise decrement by 1") have it decrement the count and keep
    the entry. *)
Lemma OnRowCacheEvict_erases_at_zero :
  reachable Hash64_sample
    (N.iter 4294967296 (KVCP_OnRowCacheInsert Hash64_sample ctx_abc) Process_start) ∧
  find Hash64_sample ctx_abc
    (KVCPTable_Inst
       (N.iter 4294967296 (KVCP_OnRowCacheInsert Hash64_sample ctx_abc) Process_start)) =
    Some (mkEntry 0 0) ∧
  find Hash64_sample ctx_abc
    (KVCPTable_Inst
       (KVCP_OnRowCacheEvict Hash64_sample ctx_abc
          (N.iter 4294967296 (KVCP_OnRowCacheInsert Hash64_sample ctx_abc) Process_start))) =
    None.
Proof.
  split; [apply reachable_iter_Insert, reachable_start|].
  split; [apply find_after_2p32_inserts|].
  change (KVCPTable_Inst (KVCP_OnRowCacheEvict ?H ?k ?p))
    with (OnEvict H k (KVCPTable_Inst p)).
  by rewrite find_OnEvict_eq, find_after_2p32_inserts.
Qed.

(** C5, as stated, fails: after one insert and [2 ^ 32] misses
    GetInvalidationCount returns 0. *)
Lemma OnRowCacheMiss_counterexample :
  KVCP_GetInvalidationCount Hash64_sample ctx_abc
    (N.iter 4294967296 (KVCP_OnRowCacheMiss Hash64_sample ctx_abc)
       (KVCP_OnRowCacheInsert Hash64_sample ctx_abc Process_start)) = 0 ∧
  0 ≠ Z.of_N 4294967296.
Proof.
  split; [|done].
  rewrite GetInvalidationCount_Insert_iter_Miss.
  - reflexivity.
  - apply Process_start_wf.
  - apply find_KVCPTable_new.
Qed.

(** The end-to-end scenario: threshold 2 for (db1, 0); insert, miss, miss;
    the insert is then to be skipped; evict; the history is gone. *)
Example end_to_end_scenario :
  let p1 := run Hash64_sample
              [CallSetThreshold 4096 0 2; CallInsert ctx_abc; CallMiss ctx_abc;
               CallMiss ctx_abc] Process_start in
  let p2 := KVCP_OnRowCacheEvict Hash64_sample ctx_abc p1 in
  KVCP_GetInvalidationCount Hash64_sample ctx_abc p1 = 2 ∧
  KVCP_ShouldSkipRowCacheInsert Hash64_sample ctx_abc
    (KVCP_GetThreshold 4096 0 p1) p1 = true ∧
  KVCP_GetInvalidationCount Hash64_sample ctx_abc p2 = 0 ∧
  KVCP_ShouldSkipRowCacheInsert Hash64_sample ctx_abc
    (KVCP_GetThreshold 4096 0 p2) p2 = false.
Proof. vm_compute. done. Qed.

(** ** The theorems at concrete inputs *)

Lemma Process_wf_one_insert :
  Process_wf (KVCP_OnRowCacheInsert Hash64_sample ctx_abc Process_start).
Proof. apply (exec_wf Hash64_sample (CallInsert ctx_abc)), Process_start_wf. Qed.

Lemma ShouldSkipRowCacheInsert_iff_witness :
  Process_wf Process_start ∧
  Process_wf (KVCP_OnRowCacheInsert Hash64_sample ctx_abc Process_start) ∧
  KVCP_ShouldSkipRowCacheInsert Hash64_sample ctx_abc 0 Process_start = false ∧
  KVCP_ShouldSkipRowCacheInsert Hash64_sample ctx_abc 0
    (KVCP_OnRowCacheInsert Hash64_sample ctx_abc Process_start) = true.
Proof.
  split; [apply Process_start_wf|]. split; [apply Process_wf_one_insert|]. split.
  - apply (ShouldSkipRowCacheInsert_iff Hash64_sample ctx_abc 0 Process_start
             Process_start_wf).
    reflexivity.
  - apply (ShouldSkipRowCacheInsert_iff Hash64_sample ctx_abc 0 _ Process_wf_one_insert).
    vm_compute. eauto.
Defined.

Lemma OnRowCacheInsert_spec_witness :
  Process_wf Process_start ∧
  find Hash64_sample ctx_abc (KVCPTable_Inst Process_start) = None ∧
  find Hash64_sample ctx_abc
    (KVCPTable_Inst (KVCP_OnRowCacheInsert Hash64_sample ctx_abc Process_start)) =
    Some (mkEntry 1 0) ∧
  find Hash64_sample ctx_abc
    (KVCPTable_Inst
       (KVCP_OnRowCacheInsert Hash64_sample ctx_abc
          (KVCP_OnRowCacheInsert Hash64_sample ctx_abc Process_start))) =
    Some (mkEntry 2 0) ∧
  find Hash64_sample ctx_abd
    (KVCPTable_Inst (exec Hash64_sample (CallEvict ctx_abc) Process_start).1) = None.
Proof.
  pose proof (OnRowCacheInsert_spec Hash64_sample ctx_abc Process_start
                Process_start_wf) as (Hnew & _ & Honly).
  pose proof (OnRowCacheInsert_spec Hash64_sample ctx_abc _
                Process_wf_one_insert) as (_ & Hinc & _).
  split; [apply Process_start_wf|]. split; [reflexivity|].
  split; [apply Hnew; reflexivity|]. split.
  - apply (Hinc (mkEntry 1 0)). reflexivity.
  - apply Honly; [discriminate|reflexivity].
Defined.

Lemma per_key_isolation_witness :
  HKey_eqb (MakeKey ctx_abc) (MakeKey ctx_abd) = false ∧
  KVCP_TKey_eqb (mkTKey 4096 0) (mkTKey 4096 1) = false ∧
  find Hash64_sample ctx_abd
    (KVCPTable_Inst (exec Hash64_sample (CallInsert ctx_abc) Process_start).1) =
    find Hash64_sample ctx_abd (KVCPTable_Inst Process_start) ∧
  KVCP_GetThreshold 4096 1 (KVCP_SetThreshold 4096 0 7 Process_start) =
    KVCP_GetThreshold 4096 1 Process_start.
Proof.
  destruct (per_key_isolation Hash64_sample ctx_abc ctx_abd 4096 0 4096 1 7
              Process_start) as [Hkey Hthr].
  split; [reflexivity|]. split; [reflexivity|]. split.
  - apply (Hkey eq_refl (CallInsert ctx_abc)). right. left. reflexivity.
  - apply Hthr. reflexivity.
Defined.

Lemma ClearAll_spec_witness :
  Process_wf (KVCP_OnRowCacheInsert Hash64_sample ctx_abc Process_start) ∧
  KVCP_GetThreshold 4096 0
    (KVCP_ClearAll
       (KVCP_SetThreshold 4096 0 7
          (KVCP_OnRowCacheInsert Hash64_sample ctx_abc Process_start))) = 7.
Proof.
  split; [apply Process_wf_one_insert|].
  apply (ClearAll_spec Hash64_sample
           (KVCP_OnRowCacheInsert Hash64_sample ctx_abc Process_start)).
  apply Process_wf_one_insert.
Defined.

Lemma GetThreshold_most_recent_witness :
  Process_wf Process_start ∧
  KVCP_GetThreshold 4096 0
    (run Hash64_sample
       [CallSetThreshold 4096 0 2; CallSetThreshold 4096 1 9; CallSetThreshold 4096 0 5]
       Process_start) = 5 ∧
  KVCP_GetThreshold 4096 0 (KVCP_SetThreshold 4096 0 2 Process_start) = 2.
Proof.
  pose proof (GetThreshold_most_recent Hash64_sample 4096 0
                [CallSetThreshold 4096 0 2; CallSetThreshold 4096 1 9;
                 CallSetThreshold 4096 0 5]) as (Hrun & _ & Hset).
  split; [apply Process_start_wf|]. split.
  - rewrite Hrun. reflexivity.
  - apply (Hset Process_start 2 2 Process_start_wf).
Defined.

Lemma GetCachedKeyCount_spec_witness :
  Process_wf Process_start ∧
  find Hash64_sample ctx_abc (KVCPTable_Inst Process_start) = None ∧
  KVCP_GetCachedKeyCount Hash64_sample ctx_abc Process_start = 0 ∧
  KVCP_GetCachedKeyCount Hash64_sample ctx_abc
    (KVCP_OnRowCacheInsert Hash64_sample ctx_abc Process_start) = 1.
Proof.
  pose proof (GetCachedKeyCount_spec Hash64_sample ctx_abc Process_start)
    as (_ & Hnone & _ & Hins).
  split; [apply Process_start_wf|]. split; [reflexivity|].
  split; [apply Hnone; reflexivity|].
  rewrite (Hins Process_start_wf), (Hnone eq_refl). reflexivity.
Defined.

Lemma HybridEnabled_spec_witness :
  Forall (λ c, is_SetHybridEnabled c = false) [CallInsert ctx_abc; CallIsHybridEnabled] ∧
  is_hybrid_call (CallInsert ctx_abc) = false ∧
  KVCP_IsHybridEnabled
    (run Hash64_sample [CallInsert ctx_abc; CallIsHybridEnabled]
       (KVCP_SetHybridEnabled true Process_start)) = true ∧
  exec Hash64_sample (CallInsert ctx_abc) (KVCP_SetHybridEnabled true Process_start) =
    (KVCP_SetHybridEnabled true (exec Hash64_sample (CallInsert ctx_abc) Process_start).1,
     (exec Hash64_sample (CallInsert ctx_abc) Process_start).2).
Proof.
  pose proof (HybridEnabled_spec Hash64_sample) as (_ & _ & _ & Hkeep & _ & Hother).
  assert (Forall (λ c, is_SetHybridEnabled c = false)
            [CallInsert ctx_abc; CallIsHybridEnabled]) as Hcs
    by (repeat constructor).
  split; [exact Hcs|]. split; [reflexivity|]. split.
  - apply Hkeep, Hcs.
  - apply Hother. reflexivity.
Defined.

Lemma StatsInv_bounded_inserts_witness :
  inserts [CallInsert ctx_abc; CallInsert ctx_abc; CallEvict ctx_abc] < 2 ^ 32 ∧
  StatsInv Hash64_sample
    (run Hash64_sample [CallInsert ctx_abc; CallInsert ctx_abc; CallEvict ctx_abc]
       Process_start) ∧
  Process_wf Process_start ∧
  StatsInv Hash64_sample Process_start ∧
  (∀ k, CallInsert ctx_abc = CallInsert k →
     count_of (find Hash64_sample k (KVCPTable_Inst Process_start)) < 2 ^ 32 - 1) ∧
  StatsInv Hash64_sample (exec Hash64_sample (CallInsert ctx_abc) Process_start).1.
Proof.
  pose proof (StatsInv_bounded_inserts Hash64_sample) as [Hrun Hstep].
  assert (inserts [CallInsert ctx_abc; CallInsert ctx_abc; CallEvict ctx_abc] < 2 ^ 32)
    as Hlt by reflexivity.
  assert (∀ k, CallInsert ctx_abc = CallInsert k →
            count_of (find Hash64_sample k (KVCPTable_Inst Process_start)) < 2 ^ 32 - 1)
    as Hcount.
  { intros k _. simpl. rewrite find_KVCPTable_new. reflexivity. }
  split; [exact Hlt|]. split; [apply Hrun, Hlt|].
  split; [apply Process_start_wf|]. split; [apply StatsInv_start|].
  split; [exact Hcount|].
  apply Hstep; [apply Process_start_wf|apply StatsInv_start|exact Hcount].
Defined.

Lemma OnRowCacheEvict_spec_witness :
  Process_wf Process_start ∧
  find Hash64_sample ctx_abc (KVCPTable_Inst Process_start) = None ∧
  KVCP_OnRowCacheEvict Hash64_sample ctx_abc Process_start = Process_start ∧
  Process_wf (KVCP_OnRowCacheInsert Hash64_sample ctx_abc Process_start) ∧
  find Hash64_sample ctx_abc
    (KVCPTable_Inst (KVCP_OnRowCacheInsert Hash64_sample ctx_abc Process_start)) =
    Some (mkEntry 1 0) ∧
  find Hash64_sample ctx_abc
    (KVCPTable_Inst
       (KVCP_OnRowCacheEvict Hash64_sample ctx_abc
          (KVCP_OnRowCacheInsert Hash64_sample ctx_abc Process_start))) = None ∧
  Process_wf
    (KVCP_OnRowCacheInsert Hash64_sample ctx_abc
       (KVCP_OnRowCacheInsert Hash64_sample ctx_abc Process_start)) ∧
  find Hash64_sample ctx_abc
    (KVCPTable_Inst
       (KVCP_OnRowCacheEvict Hash64_sample ctx_abc
          (KVCP_OnRowCacheInsert Hash64_sample ctx_abc
             (KVCP_OnRowCacheInsert Hash64_sample ctx_abc Process_start)))) =
    Some (mkEntry 1 0).
Proof.
  assert (Process_wf
            (KVCP_OnRowCacheInsert Hash64_sample ctx_abc
               (KVCP_OnRowCacheInsert Hash64_sample ctx_abc Process_start))) as Hwf2
    by apply (exec_wf Hash64_sample (CallInsert ctx_abc)), Process_wf_one_insert.
  pose proof (OnRowCacheEvict_spec Hash64_sample ctx_abc Process_start
                Process_start_wf) as (Hnoop & _ & _ & _).
  pose proof (OnRowCacheEvict_spec Hash64_sample ctx_abc _
                Process_wf_one_insert) as (_ & Hdel & _ & _).
  pose proof (OnRowCacheEvict_spec Hash64_sample ctx_abc _ Hwf2) as (_ & _ & Hdec & _).
  split; [apply Process_start_wf|]. split; [reflexivity|].
  split; [apply Hnoop; reflexivity|]. split; [apply Process_wf_one_insert|].
  split; [reflexivity|]. split.
  - apply (Hdel (mkEntry 1 0)); [reflexivity|simpl; lia].
  - split; [exact Hwf2|].
    apply (Hdec (mkEntry 2 0)); [reflexivity|simpl; lia].
Defined.

Lemma OnRowCacheMiss_spec_witness :
  Process_wf Process_start ∧
  find Hash64_sample ctx_abc (KVCPTable_Inst Process_start) = None ∧
  KVCP_OnRowCacheMiss Hash64_sample ctx_abc Process_start = Process_start ∧
  Z.of_N 3 < 2 ^ 32 ∧
  KVCP_GetInvalidationCount Hash64_sample ctx_abc
    (N.iter 3 (KVCP_OnRowCacheMiss Hash64_sample ctx_abc)
       (KVCP_OnRowCacheInsert Hash64_sample ctx_abc Process_start)) = 3 ∧
  Process_wf (KVCP_OnRowCacheInsert Hash64_sample ctx_abc Process_start) ∧
  find Hash64_sample ctx_abc
    (KVCPTable_Inst
       (KVCP_OnRowCacheMiss Hash64_sample ctx_abc
          (KVCP_OnRowCacheInsert Hash64_sample ctx_abc Process_start))) =
    Some (mkEntry 1 1).
Proof.
  pose proof (OnRowCacheMiss_spec Hash64_sample ctx_abc Process_start
                Process_start_wf) as (_ & Hnoop & Hiter).
  pose proof (OnRowCacheMiss_spec Hash64_sample ctx_abc _
                Process_wf_one_insert) as (Hinc & _ & _).
  assert (find Hash64_sample ctx_abc (KVCPTable_Inst Process_start) = None) as Hnone
    by reflexivity.
  split; [apply Process_start_wf|]. split; [exact Hnone|]. split.
  - apply Hnoop. intros e. rewrite Hnone. discriminate.
  - split; [reflexivity|]. split.
    + apply (Hiter Hnone 3%N). reflexivity.
    + split; [apply Process_wf_one_insert|].
      apply (Hinc (mkEntry 1 0)); [reflexivity|reflexivity].
Defined.

(** ** The further properties at concrete inputs *)

Lemma reachable_one_insert :
  reachable Hash64_sample (KVCP_OnRowCacheInsert Hash64_sample ctx_abc Process_start).
Proof. apply (reachable_exec Hash64_sample (CallInsert ctx_abc)), reachable_start. Qed.

Lemma find_one_insert :
  find Hash64_sample ctx_abc
    (KVCPTable_Inst (KVCP_OnRowCacheInsert Hash64_sample ctx_abc Process_start)) =
  Some (mkEntry 1 0).
Proof. reflexivity. Qed.

Lemma shard_index_in_range_witness :
  reachable Hash64_sample (KVCP_OnRowCacheInsert Hash64_sample ctx_abc Process_start) ∧
  is_Some
    (KVCPTable_Inst (KVCP_OnRowCacheInsert Hash64_sample ctx_abc Process_start)
       !! Z.to_nat (ShardIdx Hash64_sample ctx_abd)).
Proof.
  split; [apply reachable_one_insert|].
  apply (shard_index_in_range Hash64_sample _ ctx_abd 4096 0 reachable_one_insert).
Defined.

Lemma keys_in_their_shard_witness :
  reachable Hash64_sample (KVCP_OnRowCacheInsert Hash64_sample ctx_abc Process_start) ∧
  Placed Hash64_sample
    (KVCPTable_Inst (KVCP_OnRowCacheInsert Hash64_sample ctx_abc Process_start)).
Proof.
  split; [apply reachable_one_insert|].
  apply (keys_in_their_shard Hash64_sample _ reachable_one_insert).
Defined.

Lemma writes_stay_in_one_shard_witness :
  writes_key (CallInsert ctx_abc) ctx_abc ∧
  0%nat ≠ Z.to_nat (ShardIdx Hash64_sample ctx_abc) ∧
  0%nat ≠ Z.to_nat (KVCP_ThresholdTable_ShardIdx 4096 0) ∧
  KVCPTable_Inst (exec Hash64_sample (CallInsert ctx_abc) Process_start).1 !! 0%nat =
    KVCPTable_Inst Process_start !! 0%nat ∧
  KVCP_ThresholdTable_Inst (KVCP_SetThreshold 4096 0 7 Process_start) !! 0%nat =
    KVCP_ThresholdTable_Inst Process_start !! 0%nat.
Proof.
  assert (writes_key (CallInsert ctx_abc) ctx_abc) as Hw by (right; by left).
  assert (0%nat ≠ Z.to_nat (ShardIdx Hash64_sample ctx_abc)) as Hi
    by (vm_compute; discriminate).
  assert (0%nat ≠ Z.to_nat (KVCP_ThresholdTable_ShardIdx 4096 0)) as Hj
    by (vm_compute; discriminate).
  destruct (writes_stay_in_one_shard Hash64_sample (CallInsert ctx_abc) ctx_abc
              4096 0 7 0%nat Process_start) as [Hs Ht].
  split; [exact Hw|]. split; [exact Hi|]. split; [exact Hj|]. split.
  - apply (Hs Hw Hi).
  - apply (Ht Hj).
Defined.

Lemma writes_on_distinct_keys_commute_witness :
  ctx_abc ≠ ctx_abd ∧
  writes_key (CallInsert ctx_abc) ctx_abc ∧
  writes_key (CallMiss ctx_abd) ctx_abd ∧
  (exec Hash64_sample (CallMiss ctx_abd)
     (exec Hash64_sample (CallInsert ctx_abc) Process_start).1).1 =
  (exec Hash64_sample (CallInsert ctx_abc)
     (exec Hash64_sample (CallMiss ctx_abd) Process_start).1).1.
Proof.
  assert (ctx_abc ≠ ctx_abd) as Hne by discriminate.
  assert (writes_key (CallInsert ctx_abc) ctx_abc) as Hw by (right; by left).
  assert (writes_key (CallMiss ctx_abd) ctx_abd) as Hw' by (by left).
  split; [exact Hne|]. split; [exact Hw|]. split; [exact Hw'|].
  apply (writes_on_distinct_keys_commute Hash64_sample _ _ _ _ Process_start Hne Hw Hw').
Defined.

Lemma one_insert_in_range :
  ∀ e, find Hash64_sample ctx_abc
         (KVCPTable_Inst (KVCP_OnRowCacheInsert Hash64_sample ctx_abc Process_start)) =
       Some e →
       1 ≤ cached_key_count e < 2 ^ 32 - 1.
Proof. intros e. rewrite find_one_insert. intros [= <-]. simpl. lia. Qed.

Lemma Evict_after_Insert_restores_witness :
  (∀ e, find Hash64_sample ctx_abc
          (KVCPTable_Inst (KVCP_OnRowCacheInsert Hash64_sample ctx_abc Process_start)) =
        Some e →
        1 ≤ cached_key_count e < 2 ^ 32 - 1) ∧
  KVCP_OnRowCacheEvict Hash64_sample ctx_abc
    (KVCP_OnRowCacheInsert Hash64_sample ctx_abc
       (KVCP_OnRowCacheInsert Hash64_sample ctx_abc Process_start)) =
  KVCP_OnRowCacheInsert Hash64_sample ctx_abc Process_start.
Proof.
  split; [exact one_insert_in_range|].
  apply (Evict_after_Insert_restores Hash64_sample ctx_abc _ one_insert_in_range).
Defined.

Lemma n_Inserts_n_Evicts_restore_witness :
  Process_wf Process_start ∧
  find Hash64_sample ctx_abc (KVCPTable_Inst Process_start) = None ∧
  Z.of_N 5 < 2 ^ 32 ∧
  N.iter 5 (KVCP_OnRowCacheEvict Hash64_sample ctx_abc)
    (N.iter 5 (KVCP_OnRowCacheInsert Hash64_sample ctx_abc) Process_start) =
  Process_start.
Proof.
  split; [apply Process_start_wf|]. split; [reflexivity|]. split; [reflexivity|].
  apply (n_Inserts_n_Evicts_restore Hash64_sample ctx_abc 5 Process_start
           Process_start_wf eq_refl eq_refl).
Defined.

Lemma ShouldSkip_and_GetInvalidationCount_witness :
  0 < 1 ∧ 0 ≤ 1 ∧
  KVCP_ShouldSkipRowCacheInsert Hash64_sample ctx_abc 0
    (KVCP_OnRowCacheInsert Hash64_sample ctx_abc Process_start) = true ∧
  0 ≤ KVCP_GetInvalidationCount Hash64_sample ctx_abc
        (KVCP_OnRowCacheInsert Hash64_sample ctx_abc Process_start) ∧
  KVCP_ShouldSkipRowCacheInsert Hash64_sample ctx_abc 1
    (KVCP_OnRowCacheInsert Hash64_sample ctx_abc Process_start) =
    (1 <=? KVCP_GetInvalidationCount Hash64_sample ctx_abc
             (KVCP_OnRowCacheInsert Hash64_sample ctx_abc Process_start)).
Proof.
  destruct (ShouldSkip_and_GetInvalidationCount Hash64_sample ctx_abc 0 0
              (KVCP_OnRowCacheInsert Hash64_sample ctx_abc Process_start))
    as (Hle & _ & _).
  destruct (ShouldSkip_and_GetInvalidationCount Hash64_sample ctx_abc 1 0
              (KVCP_OnRowCacheInsert Hash64_sample ctx_abc Process_start))
    as (_ & Heq & _).
  split; [lia|]. split; [lia|]. split; [reflexivity|].
  split; [apply Hle; reflexivity|apply Heq; lia].
Defined.

Lemma Insert_keeps_invalidation_counts_witness :
  0 < 1 ∧
  KVCP_ShouldSkipRowCacheInsert Hash64_sample ctx_abc 1
    (KVCP_OnRowCacheInsert Hash64_sample ctx_abc Process_start) =
  KVCP_ShouldSkipRowCacheInsert Hash64_sample ctx_abc 1 Process_start.
Proof.
  split; [lia|].
  apply (Insert_keeps_invalidation_counts Hash64_sample ctx_abc ctx_abc 1 Process_start).
  lia.
Defined.

Lemma invalidations_bounded_by_misses_witness :
  KVCP_ShouldSkipRowCacheInsert Hash64_sample ctx_abc 2
    (run Hash64_sample [CallInsert ctx_abc; CallMiss ctx_abc; CallMiss ctx_abc]
       Process_start) = true ∧
  2 ≤ misses ctx_abc [CallInsert ctx_abc; CallMiss ctx_abc; CallMiss ctx_abc].
Proof.
  assert (KVCP_ShouldSkipRowCacheInsert Hash64_sample ctx_abc 2
            (run Hash64_sample [CallInsert ctx_abc; CallMiss ctx_abc; CallMiss ctx_abc]
               Process_start) = true) as Hskip by (vm_compute; reflexivity).
  split; [exact Hskip|].
  apply (invalidations_bounded_by_misses Hash64_sample ctx_abc 2
           [CallInsert ctx_abc; CallMiss ctx_abc; CallMiss ctx_abc]).
  exact Hskip.
Defined.

Lemma skipped_from_the_t_th_miss_witness :
  Process_wf Process_start ∧
  find Hash64_sample ctx_abc (KVCPTable_Inst Process_start) = None ∧
  Z.of_N 3 < 2 ^ 32 ∧
  KVCP_ShouldSkipRowCacheInsert Hash64_sample ctx_abc 3
    (N.iter 3 (KVCP_OnRowCacheMiss Hash64_sample ctx_abc)
       (KVCP_OnRowCacheInsert Hash64_sample ctx_abc Process_start)) = (3 <=? Z.of_N 3).
Proof.
  split; [apply Process_start_wf|]. split; [reflexivity|]. split; [reflexivity|].
  apply (skipped_from_the_t_th_miss Hash64_sample ctx_abc 3 3 Process_start
           Process_start_wf eq_refl eq_refl).
Defined.

Lemma ClearAll_restores_constructed_table_witness :
  reachable Hash64_sample (KVCP_OnRowCacheInsert Hash64_sample ctx_abc Process_start) ∧
  KVCPTable_Inst
    (KVCP_ClearAll (KVCP_OnRowCacheInsert Hash64_sample ctx_abc Process_start)) =
  KVCPTable_new.
Proof.
  split; [apply reachable_one_insert|].
  apply (ClearAll_restores_constructed_table Hash64_sample _ reachable_one_insert).
Defined.

Lemma SetThreshold_overwrites_and_commutes_witness :
  (4096, 0) ≠ (4096, 1) ∧
  KVCP_SetThreshold 4096 0 2 (KVCP_SetThreshold 4096 1 9 Process_start) =
  KVCP_SetThreshold 4096 1 9 (KVCP_SetThreshold 4096 0 2 Process_start).
Proof.
  assert ((4096, 0) ≠ (4096, 1)) as Hne by discriminate.
  split; [exact Hne|].
  apply (SetThreshold_overwrites_and_commutes 4096 0 4096 1 2 9 Process_start), Hne.
Defined.

Lemma n_Inserts_count_witness :
  Process_wf Process_start ∧ (0 < 5)%N ∧
  find Hash64_sample ctx_abc (KVCPTable_Inst Process_start) = None ∧
  Z.of_N 5 < 2 ^ 32 ∧
  find Hash64_sample ctx_abc
    (KVCPTable_Inst (N.iter 5 (KVCP_OnRowCacheInsert Hash64_sample ctx_abc) Process_start)) =
  Some (mkEntry 5 0).
Proof.
  split; [apply Process_start_wf|]. split; [reflexivity|]. split; [reflexivity|].
  split; [reflexivity|].
  apply (n_Inserts_count Hash64_sample ctx_abc 5 Process_start Process_start_wf eq_refl);
    reflexivity.
Defined.

Lemma Insert_after_full_Evict_starts_afresh_witness :
  Process_wf
    (KVCP_OnRowCacheMiss Hash64_sample ctx_abc
       (KVCP_OnRowCacheInsert Hash64_sample ctx_abc Process_start)) ∧
  find Hash64_sample ctx_abc
    (KVCPTable_Inst
       (KVCP_OnRowCacheMiss Hash64_sample ctx_abc
          (KVCP_OnRowCacheInsert Hash64_sample ctx_abc Process_start))) =
    Some (mkEntry 1 1) ∧
  cached_key_count (mkEntry 1 1) ≤ 1 ∧
  KVCP_GetInvalidationCount Hash64_sample ctx_abc
    (KVCP_OnRowCacheInsert Hash64_sample ctx_abc
       (KVCP_OnRowCacheEvict Hash64_sample ctx_abc
          (KVCP_OnRowCacheMiss Hash64_sample ctx_abc
             (KVCP_OnRowCacheInsert Hash64_sample ctx_abc Process_start)))) = 0.
Proof.
  assert (Process_wf
            (KVCP_OnRowCacheMiss Hash64_sample ctx_abc
               (KVCP_OnRowCacheInsert Hash64_sample ctx_abc Process_start))) as Hwf
    by apply (exec_wf Hash64_sample (CallMiss ctx_abc)), Process_wf_one_insert.
  split; [exact Hwf|]. split; [reflexivity|]. split; [simpl; lia|].
  apply (Insert_after_full_Evict_starts_afresh Hash64_sample ctx_abc (mkEntry 1 1) _
           Hwf eq_refl).
  simpl. lia.
Defined.
